(** * The patch-based undo/redo command store of [src/store/command.ts]

    The store keeps two stacks of commands inside the Vuex state object.
    A command is recorded by running a recipe under immer, converting the
    patches immer reports into RFC 6902 operations and applying them to the
    live state with [applyPatch] of the [rfc6902] package.

    The state object, the commands kept in it and the operations of a
    command are all plain JavaScript objects, so they are embedded in one
    type of JavaScript values.  In-place mutation is written as explicit
    state passing; a thrown exception is a result of its own that still
    carries the state object as the statements executed so far left it.
    Values are trees and are compared by structure: that a value inside a
    recorded operation may be the very object that sits in the state is not
    represented. *)

From Stdlib Require Import String Ascii List ZArith Lia Bool Arith.
From Stdlib Require Import Numbers.DecimalString.
Import ListNotations.
Open Scope string_scope.
Open Scope list_scope.

Set Warnings "-register-all".

(** ** JavaScript values *)

Module JS.

(** Numbers are the integers: the engine only meets array lengths and
    indices.  An object is the list of its own properties in insertion
    order, an array is the list of its elements. *)
Inductive value : Type :=
| Undefined
| Null
| Bool (b : bool)
| Num (n : Z)
| Str (s : string)
| Arr (elems : list value)
| Obj (props : list (string * value)).

(** [o[k]] on the own properties of an object, [undefined] when absent. *)
Fixpoint getProp (k : string) (props : list (string * value)) : value :=
  match props with
  | [] => Undefined
  | (k', v) :: rest => if String.eqb k k' then v else getProp k rest
  end.

(** [k in o] for own properties. *)
Fixpoint hasProp (k : string) (props : list (string * value)) : bool :=
  match props with
  | [] => false
  | (k', _) :: rest => if String.eqb k k' then true else hasProp k rest
  end.

(** [o[k] = v]: an existing property keeps its position, a new one is
    appended. *)
Fixpoint setProp (k : string) (v : value) (props : list (string * value))
  : list (string * value) :=
  match props with
  | [] => [(k, v)]
  | (k', v') :: rest =>
      if String.eqb k k' then (k', v) :: rest
      else (k', v') :: setProp k v rest
  end.

(** [delete o[k]]. *)
Fixpoint deleteProp (k : string) (props : list (string * value))
  : list (string * value) :=
  match props with
  | [] => []
  | (k', v') :: rest =>
      if String.eqb k k' then deleteProp k rest
      else (k', v') :: deleteProp k rest
  end.

(** [x != null] is false exactly for [null] and [undefined]. *)
Definition notNullish (v : value) : bool :=
  match v with
  | Undefined | Null => false
  | _ => true
  end.

(** [String(n)] for an array index. *)
Definition indexToString (n : nat) : string :=
  NilEmpty.string_of_uint (Nat.to_uint n).

(** A decimal array index written as a string, the only keys that address
    the elements of an array. *)
Definition parseIndex (key : string) : option nat :=
  match key with
  | EmptyString => None
  | _ => option_map Nat.of_uint (NilEmpty.uint_of_string key)
  end.

(** [parent[key]] for the own properties of an object and the elements of
    an array; any other read gives [undefined]. *)
Definition member (parent : value) (key : string) : value :=
  match parent with
  | Obj props => getProp key props
  | Arr elems =>
      match parseIndex key with
      | Some i => nth i elems Undefined
      | None => Undefined
      end
  | _ => Undefined
  end.

(** [Array.prototype.join]. *)
Definition join (sep : string) (parts : list string) : string :=
  String.concat sep parts.

(** [String.prototype.split] on a one-character separator. *)
Fixpoint split (sep : ascii) (s : string) : list string :=
  match s with
  | EmptyString => [EmptyString]
  | String c rest =>
      if Ascii.eqb c sep then EmptyString :: split sep rest
      else match split sep rest with
           | [] => [String c EmptyString]
           | first :: others => String c first :: others
           end
  end.

(** [s.replace(/ab/g, c)] for a two-character pattern [ab]: one pass from
    the left, without rescanning what was produced. *)
Fixpoint replacePair (a b c : ascii) (s : string) : string :=
  match s with
  | EmptyString => EmptyString
  | String x rest =>
      match rest with
      | String y rest' =>
          if Ascii.eqb x a && Ascii.eqb y b
          then String c (replacePair a b c rest')
          else String x (replacePair a b c rest)
      | EmptyString => String x EmptyString
      end
  end.

(** What a statement leaves behind: it returns, or it throws. *)
Inductive exn : Type :=
| TypeError (message : string)
| Thrown (payload : value).

Inductive result (A : Type) : Type :=
| Ok (a : A)
| Throw (e : exn).
Arguments Ok {A} a.
Arguments Throw {A} e.

End JS.

Import JS.

(** ** immer patches *)

(** [Patch] of immer: [{op, path, value?}] with
    [op: "replace" | "remove" | "add"] and [path: (string | number)[]].
    The numbers in a path are array indices. *)
Inductive PatchOp : Type := PReplace | PRemove | PAdd.

Inductive PathSegment : Type :=
| Key (s : string)
| Index (n : nat).

(** Reading [patch.value] of a patch that has none gives [undefined], so the
    field holds [Undefined] for it. *)
Record Patch : Type := mkPatch {
  patch_op : PatchOp;
  patch_path : list PathSegment;
  patch_value : value
}.

Definition opName (o : PatchOp) : string :=
  match o with
  | PReplace => "replace"
  | PRemove => "remove"
  | PAdd => "add"
  end.

(** [String(segment)], as [Array.prototype.join] converts each element. *)
Definition segmentToString (seg : PathSegment) : string :=
  match seg with
  | Key s => s
  | Index n => indexToString n
  end.

(** [patchToOperation]:
    [{ op: patch.op, path: `/${patch.path.join("/")}`, value: patch.value }]. *)
Definition patchToOperation (patch : Patch) : value :=
  Obj [ ("op", Str (opName (patch_op patch)));
        ("path", Str ("/" ++ join "/" (map segmentToString (patch_path patch))));
        ("value", patch_value patch) ].

(** ** The patch applier *)

Module Rfc6902.

(** Modelled from the spec: [applyPatch] of the [rfc6902] package, which
    [command.ts] imports and whose source is not part of the repository.
    The per-operation semantics is the one of section 4.2 (Patch Applier);
    paths are JSON Pointers (RFC 6901), split on ['/'] with [~1] and [~0]
    unescaped, in that order.  The package does not throw on an operation
    whose precondition fails: it returns one result per operation, [null]
    for a success and an error object otherwise.  Here an operation that
    cannot be read (no string [op] or [path], a pointer that does not start
    with ['/']) is reported in the same way. *)
Inductive PatchError : Type :=
| MissingError (path : value)
| TestError (actual expected : value)
| InvalidOperationError (operation : value).

(** [unescape] of a reference token: [~1] first, then [~0]. *)
Definition unescape (token : string) : string :=
  replacePair "~" "0" "~" (replacePair "~" "1" "/" token).

(** [Pointer.fromJSON]: the reference tokens after the leading empty one. *)
Definition fromJSON (path : string) : option (list string) :=
  match map unescape (split "/" path) with
  | first :: tokens => if String.eqb first "" then Some tokens else None
  | [] => None
  end.

(** The pointer in a [path] or [from] property, which has to be a string. *)
Definition pointerOf (path : value) : option (list string) :=
  match path with
  | Str s => fromJSON s
  | _ => None
  end.

(** [Pointer.evaluate]: the value a pointer leads to. *)
Fixpoint evaluate (tokens : list string) (object : value) : value :=
  match tokens with
  | [] => object
  | key :: rest => evaluate rest (member object key)
  end.

(** Deep equality, blind to the order of the properties of an object. *)
Fixpoint equal (a b : value) {struct a} : bool :=
  match a, b with
  | Undefined, Undefined => true
  | Null, Null => true
  | Bool x, Bool y => Bool.eqb x y
  | Num x, Num y => Z.eqb x y
  | Str x, Str y => String.eqb x y
  | Arr xs, Arr ys =>
      (fix all2 (xs ys : list value) {struct xs} : bool :=
         match xs, ys with
         | [], [] => true
         | x :: xs', y :: ys' => equal x y && all2 xs' ys'
         | _, _ => false
         end) xs ys
  | Obj ps, Obj qs =>
      Nat.eqb (List.length ps) (List.length qs)
      && (fix each (ps : list (string * value)) : bool :=
            match ps with
            | [] => true
            | (k, v) :: ps' =>
                hasProp k qs && equal v (getProp k qs) && each ps'
            end) ps
  | _, _ => false
  end.

(** [Add] at the last token: an array takes the value at an index up to its
    length (the later elements shift) or at ["-"], an object gets the
    property set. *)
Definition addMember (v : value) (parent : value) (key : string)
  : option value :=
  match parent with
  | Arr elems =>
      if String.eqb key "-" then Some (Arr (elems ++ [v]))
      else match parseIndex key with
           | Some i =>
               if Nat.leb i (List.length elems)
               then Some (Arr (firstn i elems ++ v :: skipn i elems))
               else None
           | None => None
           end
  | Obj props => Some (Obj (setProp key v props))
  | _ => None
  end.

(** [Remove] at the last token: the member has to exist. *)
Definition removeMember (parent : value) (key : string) : option value :=
  match parent with
  | Arr elems =>
      match parseIndex key with
      | Some i =>
          if Nat.ltb i (List.length elems)
          then Some (Arr (firstn i elems ++ skipn (S i) elems))
          else None
      | None => None
      end
  | Obj props =>
      if hasProp key props then Some (Obj (deleteProp key props)) else None
  | _ => None
  end.

(** [array.length = n]: the first [n] elements, followed by [undefined]
    where the array was shorter. *)
Definition resize (n : nat) (elems : list value) : list value :=
  firstn n elems ++ repeat Undefined (n - List.length elems).

(** [Replace] at the last token: the member has to exist.  For an array the
    package turns down an index that is not below the length and then
    assigns [parent[key] = value]; with the key ["length"], which is where
    immer puts the former length of an array that grew, the assignment cuts
    the array down to that length.  Arrays are lists here: only a number
    that is not negative is taken as a length, and a key that is neither an
    index nor ["length"] is reported as missing. *)
Definition replaceMember (v : value) (parent : value) (key : string)
  : option value :=
  match parent with
  | Arr elems =>
      match parseIndex key with
      | Some i =>
          if Nat.ltb i (List.length elems)
          then Some (Arr (firstn i elems ++ v :: skipn (S i) elems))
          else None
      | None =>
          if String.eqb key "length" then
            match v with
            | Num n =>
                if Z.leb 0 n then Some (Arr (resize (Z.to_nat n) elems))
                else None
            | _ => None
            end
          else None
      end
  | Obj props =>
      if hasProp key props then Some (Obj (setProp key v props)) else None
  | _ => None
  end.

(** The mutation of [endpoint.parent] in place: the container the pointer
    leads to is changed by [leaf] at the last token, and every container on
    the way keeps its other members.  The root itself has no parent. *)
Fixpoint modify (leaf : value -> string -> option value)
    (tokens : list string) (object : value) : option value :=
  match tokens with
  | [] => None
  | key :: rest =>
      match rest with
      | [] => leaf object key
      | _ :: _ =>
          match modify leaf rest (member object key) with
          | Some child => replaceMember child object key
          | None => None
          end
      end
  end.

(** The result of an operation: the changed object and [null], or the
    object as it was and a [MissingError]. *)
Definition settle (object path : value) (outcome : option value)
  : value * option PatchError :=
  match outcome with
  | Some object' => (object', None)
  | None => (object, Some (MissingError path))
  end.

(** Modelled from the spec: the six operations of section 4.2, carried out
    at the reference tokens [tokens] of the path [path]. *)
Definition perform (object : value) (op : string) (path : value)
    (tokens : list string) (operation : value) : value * option PatchError :=
  if String.eqb op "add" then
    settle object path
      (modify (addMember (member operation "value")) tokens object)
  else if String.eqb op "remove" then
    settle object path (modify removeMember tokens object)
  else if String.eqb op "replace" then
    settle object path
      (modify (replaceMember (member operation "value")) tokens object)
  else if String.eqb op "move" then
    match pointerOf (member operation "from") with
    | Some source =>
        match modify removeMember source object with
        | Some object' =>
            settle object path
              (modify (addMember (evaluate source object)) tokens object')
        | None => (object, Some (MissingError (member operation "from")))
        end
    | None => (object, Some (InvalidOperationError operation))
    end
  else if String.eqb op "copy" then
    match pointerOf (member operation "from") with
    | Some source =>
        if equal (evaluate source object) Undefined
        then (object, Some (MissingError (member operation "from")))
        else
          settle object path
            (modify (addMember (evaluate source object)) tokens object)
    | None => (object, Some (InvalidOperationError operation))
    end
  else if String.eqb op "test" then
    if equal (evaluate tokens object) (member operation "value")
    then (object, None)
    else (object, Some (TestError (evaluate tokens object)
                                  (member operation "value")))
  else (object, Some (InvalidOperationError operation)).

(** Modelled from the spec: [apply] of the package, one operation against
    the object; the operation is read from its [op] and [path]
    properties. *)
Definition apply (object operation : value) : value * option PatchError :=
  let path := member operation "path" in
  match member operation "op", pointerOf path with
  | Str op, Some tokens => perform object op path tokens operation
  | _, _ => (object, Some (InvalidOperationError operation))
  end.

(** Modelled from the spec: [applyPatch(object, patch)] of the package, the
    operations in order, each against the object as the ones before it left
    it; the list of their results. *)
Fixpoint applyPatch (object : value) (patch : list value)
  : value * list (option PatchError) :=
  match patch with
  | [] => (object, [])
  | operation :: rest =>
      let (object', r) := apply object operation in
      let (object'', rs) := applyPatch object' rest in
      (object'', r :: rs)
  end.

End Rfc6902.

Import Rfc6902.

(** ** The command store *)

(** What a mutation leaves behind: the state object as it is afterwards,
    and whether the mutation returned or threw. *)
Inductive outcome : Type :=
| Returned (state : value)
| Threw (e : exn) (state : value).

Definition finalState (o : outcome) : value :=
  match o with
  | Returned state => state
  | Threw _ state => state
  end.

(** [state[k]] where the code calls an array method on it: any other value
    there makes the call throw a [TypeError]. *)
Definition arrayProp (k : string) (state : value) : option (list value) :=
  match member state k with
  | Arr elems => Some elems
  | _ => None
  end.

(** The array held by [state[k]] after a method changed it in place. *)
Definition setField (k : string) (v : value) (state : value) : value :=
  match state with
  | Obj props => Obj (setProp k v props)
  | _ => state
  end.

(** The [UNDO] mutation.  [pop] gives [undefined] on an empty array.  The
    patch is the array [command.undoOperation] as it is when [applyPatch]
    is called. *)
Definition UNDO (state : value) : outcome :=
  match arrayProp "undoCommands" state with
  | None => Threw (TypeError "state.undoCommands.pop") state
  | Some undoCommands =>
      let command := last undoCommands Undefined in
      let state := setField "undoCommands" (Arr (removelast undoCommands)) state in
      if notNullish command then
        match arrayProp "redoCommands" state with
        | None => Threw (TypeError "state.redoCommands.push") state
        | Some redoCommands =>
            let state :=
              setField "redoCommands" (Arr (redoCommands ++ [command])) state in
            if notNullish command then
              match member command "undoOperation" with
              | Arr patch => Returned (fst (applyPatch state patch))
              | _ => Threw (TypeError "patch.map") state
              end
            else Returned state
        end
      else Returned state
  end.

(** The [REDO] mutation. *)
Definition REDO (state : value) : outcome :=
  match arrayProp "redoCommands" state with
  | None => Threw (TypeError "state.redoCommands.pop") state
  | Some redoCommands =>
      let command := last redoCommands Undefined in
      let state := setField "redoCommands" (Arr (removelast redoCommands)) state in
      if notNullish command then
        match arrayProp "undoCommands" state with
        | None => Threw (TypeError "state.undoCommands.push") state
        | Some undoCommands =>
            let state :=
              setField "undoCommands" (Arr (undoCommands ++ [command])) state in
            if notNullish command then
              match member command "doOperation" with
              | Arr patch => Returned (fst (applyPatch state patch))
              | _ => Threw (TypeError "patch.map") state
              end
            else Returned state
        end
      else Returned state
  end.

(** The [CLEAR_COMMANDS] mutation: [splice(0)] empties an array. *)
Definition CLEAR_COMMANDS (state : value) : outcome :=
  match arrayProp "redoCommands" state with
  | None => Threw (TypeError "state.redoCommands.splice") state
  | Some _ =>
      let state := setField "redoCommands" (Arr []) state in
      match arrayProp "undoCommands" state with
      | None => Threw (TypeError "state.undoCommands.splice") state
      | Some _ => Returned (setField "undoCommands" (Arr []) state)
      end
  end.

Section Recording.

(** The payload type [P] of a recipe. *)
Variable P : Type.

(** [PayloadRecipe<S, P>]: the recipe changes the draft it is given, or
    throws. *)
Definition PayloadRecipe : Type := value -> P -> result value.

(** [immer.produceWithPatches(state, recipe)] gives
    [[nextState, patches, inversePatches]], or throws.  immer is a
    dependency of the repository and not part of its sources: the store is
    defined over any implementation of it. *)
Variable produceWithPatches :
  value -> (value -> result value) ->
  result (value * list Patch * list Patch).

(** [recordOperations]. *)
Definition recordOperations (recipe : PayloadRecipe)
    (state : value) (payload : P) : result value :=
  match produceWithPatches state (fun draft => recipe draft payload) with
  | Ok (_, doPatches, undoPatches) =>
      Ok (Obj [ ("doOperation", Arr (map patchToOperation doPatches));
                ("undoOperation", Arr (map patchToOperation undoPatches)) ])
  | Throw e => Throw e
  end.

(** [createCommandMutation]: the mutation made of a recipe. *)
Definition createCommandMutation (payloadRecipe : PayloadRecipe)
    (state : value) (payload : P) : outcome :=
  match recordOperations payloadRecipe state payload with
  | Throw e => Threw e state
  | Ok command =>
      match member command "doOperation" with
      | Arr patch =>
          let state := fst (applyPatch state patch) in
          match arrayProp "undoCommands" state with
          | None => Threw (TypeError "state.undoCommands.push") state
          | Some undoCommands =>
              let state :=
                setField "undoCommands" (Arr (undoCommands ++ [command]))
                  state in
              match arrayProp "redoCommands" state with
              | None => Threw (TypeError "state.redoCommands.splice") state
              | Some _ => Returned (setField "redoCommands" (Arr []) state)
              end
          end
      | _ => Threw (TypeError "patch.map") state
      end
  end.

End Recording.

(** ** A structural differ *)

Module StructuralDiffer.

(** A difference is reported as a patch together with its inverse. *)
Definition replaceStep (path : list PathSegment) (base next : value)
  : Patch * Patch :=
  (mkPatch PReplace path next, mkPatch PReplace path base).

Definition addStep (path : list PathSegment) (v : value) : Patch * Patch :=
  (mkPatch PAdd path v, mkPatch PRemove path Undefined).

Definition removeStep (path : list PathSegment) (v : value) : Patch * Patch :=
  (mkPatch PRemove path Undefined, mkPatch PAdd path v).

(** Modelled from the spec: the Diff Recorder of section 4.1, a structural
    differ that compares the state before and after the recipe by deep
    equality.  Elements added to a sequence are reported by ascending index
    and removed by descending index. *)
Fixpoint steps (fuel : nat) (path : list PathSegment) (base next : value)
  : list (Patch * Patch) :=
  if equal base next then []
  else
    match fuel with
    | 0 => [replaceStep path base next]
    | S fuel' =>
        match base, next with
        | Obj ps, Obj qs =>
            flat_map
              (fun kv : string * value =>
                 let (k, v) := kv in
                 if hasProp k qs
                 then steps fuel' (path ++ [Key k]) v (getProp k qs)
                 else [removeStep (path ++ [Key k]) v]) ps
            ++ flat_map
                 (fun kv : string * value =>
                    let (k, v) := kv in
                    if hasProp k ps then []
                    else [addStep (path ++ [Key k]) v]) qs
        | Arr xs, Arr ys =>
            let n := Nat.min (List.length xs) (List.length ys) in
            flat_map
              (fun i => steps fuel' (path ++ [Index i])
                          (nth i xs Undefined) (nth i ys Undefined))
              (seq 0 n)
            ++ map (fun i => addStep (path ++ [Index i]) (nth i ys Undefined))
                 (seq n (List.length ys - n))
            ++ map (fun i => removeStep (path ++ [Index i])
                               (nth i xs Undefined))
                 (List.rev (seq n (List.length xs - n)))
        | _, _ => [replaceStep path base next]
        end
    end.

(** Deeper than this the differ replaces a changed subtree as a whole. *)
Definition depth : nat := 64.

(** Modelled from the spec: [record] of section 4.1 as one implementation
    of [produceWithPatches].  The inverse script is in the reverse order of
    the forward one, and an exception of the recipe is passed on.  The
    statements that hold for any implementation of [produceWithPatches] are
    evaluated with it on concrete states. *)
Definition produceWithPatches (state : value)
    (recipe : value -> result value)
  : result (value * list Patch * list Patch) :=
  match recipe state with
  | Throw e => Throw e
  | Ok next =>
      let script := steps depth [] state next in
      Ok (next, map fst script, List.rev (map snd script))
  end.

End StructuralDiffer.

(** ** The patches of immer *)

Module Immer.

(** [a === b] as far as a tree shows it: the same primitive, or a container
    with the same members in the same order.  It is how a part of the draft
    that no statement of the recipe wrote to compares with the base. *)
Fixpoint same (a b : value) {struct a} : bool :=
  match a, b with
  | Undefined, Undefined => true
  | Null, Null => true
  | Bool x, Bool y => Bool.eqb x y
  | Num x, Num y => Z.eqb x y
  | Str x, Str y => String.eqb x y
  | Arr xs, Arr ys =>
      (fix all2 (xs ys : list value) {struct xs} : bool :=
         match xs, ys with
         | [], [] => true
         | x :: xs', y :: ys' => same x y && all2 xs' ys'
         | _, _ => false
         end) xs ys
  | Obj ps, Obj qs =>
      (fix all2 (ps qs : list (string * value)) {struct ps} : bool :=
         match ps, qs with
         | [], [] => true
         | (k, v) :: ps', (k', v') :: qs' =>
             String.eqb k k' && same v v' && all2 ps' qs'
         | _, _ => false
         end) ps qs
  | _, _ => false
  end.

Definition segment_eqb (a b : PathSegment) : bool :=
  match a, b with
  | Key s, Key t => String.eqb s t
  | Index m, Index n => Nat.eqb m n
  | _, _ => false
  end.

Fixpoint path_eqb (p q : list PathSegment) : bool :=
  match p, q with
  | [] , [] => true
  | a :: p', b :: q' => segment_eqb a b && path_eqb p' q'
  | _, _ => false
  end.

(** [p] is the beginning of [q]. *)
Fixpoint prefix_eqb (p q : list PathSegment) : bool :=
  match p, q with
  | [], _ => true
  | a :: p', b :: q' => segment_eqb a b && prefix_eqb p' q'
  | _ :: _, [] => false
  end.

(** The two patch lists under construction: [patches] and
    [inversePatches]. *)
Definition Patches : Type := (list Patch * list Patch)%type.

Definition both (parts : list Patches) : Patches :=
  (concat (map fst parts), concat (map snd parts)).

Definition replaced (path : list PathSegment) (base copy : value) : Patches :=
  ([mkPatch PReplace path copy], [mkPatch PReplace path base]).

Definition added (path : list PathSegment) (v : value) : Patches :=
  ([mkPatch PAdd path v], [mkPatch PRemove path Undefined]).

Definition removed (path : list PathSegment) (v : value) : Patches :=
  ([mkPatch PRemove path Undefined], [mkPatch PAdd path v]).

(** One [add] for each of the elements [elems], which sit at the indices
    from [i] on. *)
Definition additions (path : list PathSegment) (i : nat) (elems : list value)
  : list Patch :=
  map (fun entry => mkPatch PAdd (path ++ [Index (fst entry)]) (snd entry))
    (combine (seq i (List.length elems)) elems).

(** The patch that sets the length of the array at [path]. *)
Definition lengthPatch (path : list PathSegment) (n : nat) : Patch :=
  mkPatch PReplace (path ++ [Key "length"]) (Num (Z.of_nat n)).

Section Assigned.

(** The places of the draft to which the recipe assigned an object or an
    array of its own making.  immer tells a written property from an
    untouched one by [assigned_] and compares values with [===]; an object
    that the recipe made is never the one of the base, however equal.  A
    recipe is given here by what it turns the state into, which does not
    show these places: they are given beside it. *)
Variable assigned : list (list PathSegment).

Definition isAssigned (path : list PathSegment) : bool :=
  existsb (path_eqb path) assigned.

(** Some place at or below [path] was assigned to. *)
Definition leadsToAssigned (path : list PathSegment) : bool :=
  existsb (prefix_eqb path) assigned.

(** Modelled on the patch generation of the immer package
    ([generatePatchesFromAssigned] and [generateArrayPatches] of its patches
    plugin, in the versions that export both [enableMapSet] and
    [setUseProxies]), which [command.ts] imports and whose source is not
    part of the repository.  [base] is the value at [path] before the recipe and [copy]
    the one after it.  A place that was assigned a new object is replaced as
    a whole; a container that is as it was, with no such place in it,
    gives no patch.  A property that the object lost is removed and a new one
    added.  An array is compared index by index up to the shorter length;
    an array that grew gets one [add] per new index in ascending order and,
    in the inverse, a single [replace] of its ["length"] by the former
    length; an array that shrank gets the same with the two lists
    exchanged.  Containers that are changed in place are drafts of their
    own, whose patches carry the longer path.  The patches of the
    properties of one object are listed in the order of the properties;
    immer lists them in the order in which the recipe wrote them. *)
Fixpoint generatePatches (path : list PathSegment) (base copy : value)
    {struct base} : Patches :=
  if isAssigned path then replaced path base copy
  else if negb (leadsToAssigned path) && same base copy then ([], [])
  else
    match base, copy with
    | Obj ps, Obj qs =>
        both
          ((fix kept (ps : list (string * value)) : list Patches :=
              match ps with
              | [] => []
              | (k, v) :: ps' =>
                  (if hasProp k qs
                   then generatePatches (path ++ [Key k]) v (getProp k qs)
                   else removed (path ++ [Key k]) v) :: kept ps'
              end) ps
           ++ map (fun entry : string * value =>
                     if hasProp (fst entry) ps then ([], [])
                     else added (path ++ [Key (fst entry)]) (snd entry)) qs)
    | Arr xs, Arr ys =>
        both
          ((fix common (i : nat) (xs ys : list value) {struct xs}
              : list Patches :=
              match xs, ys with
              | x :: xs', y :: ys' =>
                  generatePatches (path ++ [Index i]) x y
                  :: common (S i) xs' ys'
              | [], _ :: _ => [(additions path i ys, [lengthPatch path i])]
              | _ :: _, [] => [([lengthPatch path i], additions path i xs)]
              | [], [] => []
              end) 0 xs ys)
    | _, _ => if same base copy then ([], []) else replaced path base copy
    end.

(** Modelled on [produceWithPatches] of the immer package: the recipe runs
    on a draft of the state, what it throws is passed on, and the patches
    are generated from the root of the draft. *)
Definition produceWithPatches (state : value)
    (recipe : value -> result value)
  : result (value * list Patch * list Patch) :=
  match recipe state with
  | Throw e => Throw e
  | Ok next =>
      Ok (next, fst (generatePatches [] state next),
                snd (generatePatches [] state next))
  end.

End Assigned.

End Immer.

(** ** Vocabulary of the statements *)

(** The two properties of the state object that hold the history. *)
Definition isHistory (k : string) : bool :=
  String.eqb k "undoCommands" || String.eqb k "redoCommands".

(** A pointer that does not enter the history: its first reference token is
    neither of the two stacks.  What is no pointer leads nowhere. *)
Definition pointsOutsideHistory (path : value) : bool :=
  match pointerOf path with
  | Some (token :: _) => negb (isHistory token)
  | _ => true
  end.

(** An operation whose [path], and [from] when it has one, stay outside the
    history. *)
Definition avoidsHistory (operation : value) : bool :=
  pointsOutsideHistory (member operation "path")
  && pointsOutsideHistory (member operation "from").

(** A command none of whose operations addresses the history. *)
Definition historyFree (command : value) : bool :=
  match member command "doOperation", member command "undoOperation" with
  | Arr doOperation, Arr undoOperation =>
      forallb avoidsHistory doOperation && forallb avoidsHistory undoOperation
  | _, _ => false
  end.

(** The command object [recordOperations] builds from two patch lists. *)
Definition commandOf (doPatches undoPatches : list Patch) : value :=
  Obj [ ("doOperation", Arr (map patchToOperation doPatches));
        ("undoOperation", Arr (map patchToOperation undoPatches)) ].

(** The state object after [UNDO] or [REDO] moved a command and before the
    patch is applied. *)
Definition moved (source target : string) (rest : list value)
    (onto : list value) (command : value) (state : value) : value :=
  setField target (Arr (onto ++ [command]))
    (setField source (Arr rest) state).

(** A string with neither ['/'] nor ['~'] in it. *)
Fixpoint plain (s : string) : bool :=
  match s with
  | EmptyString => true
  | String c rest =>
      negb (Ascii.eqb c "/") && negb (Ascii.eqb c "~") && plain rest
  end.

(** A path that is not empty and whose segments are all plain. *)
Definition plainPath (path : list PathSegment) : bool :=
  match path with
  | [] => false
  | _ => forallb (fun seg => plain (segmentToString seg)) path
  end.

(** A change at the last token that leaves the other properties of an
    object alone. *)
Definition local (leaf : value -> string -> option value) : Prop :=
  forall props key object',
    leaf (Obj props) key = Some object' ->
    exists props',
      object' = Obj props' /\
      forall k, k <> key -> getProp k props' = getProp k props.

(** ** Concrete states and recipes *)

Module Scenario.

(** A state object with the given document property and history. *)
Definition store (items : list value) (undoCommands redoCommands : list value)
  : value :=
  Obj [ ("items", Arr items);
        ("undoCommands", Arr undoCommands);
        ("redoCommands", Arr redoCommands) ].

(** [draft.items.push(x)]. *)
Definition append (draft : value) (x : value) : result value :=
  match member draft "items" with
  | Arr items => Ok (setField "items" (Arr (items ++ [x])) draft)
  | _ => Throw (TypeError "draft.items.push")
  end.

(** A recipe that touches nothing. *)
Definition nothing (draft : value) (_ : value) : result value := Ok draft.

(** A recipe that throws its payload. *)
Definition failing (_ : value) (payload : value) : result value :=
  Throw (Thrown payload).

(** [draft[key] = x] for the key and value in the payload. *)
Definition assign (draft : value) (payload : string * value) : result value :=
  Ok (setField (fst payload) (snd payload) draft).

Definition addC : Patch := mkPatch PAdd [Key "items"; Index 2] (Str "c").
Definition removeC : Patch := mkPatch PRemove [Key "items"; Index 2] Undefined.

(** A state with a property whose name contains a slash. *)
Definition slashed (n : Z) : value :=
  Obj [ ("a/b", Num n); ("undoCommands", Arr []); ("redoCommands", Arr []) ].

(** A command whose undo script removes a property that the state does not
    have. *)
Definition stale : value :=
  commandOf [mkPatch PAdd [Key "ghost"] (Num 1)]
            [mkPatch PRemove [Key "ghost"] Undefined].

(** A command whose undo script tests for a value the state does not
    hold. *)
Definition checked : value :=
  Obj [ ("doOperation", Arr []);
        ("undoOperation",
         Arr [Obj [ ("op", Str "test"); ("path", Str "/items/0");
                    ("value", Str "z") ]]) ].

End Scenario.

(** ** The getters, the actions and the trees of the command store *)

(** The getter [CAN_UNDO]: [state.undoCommands.length > 0].  The type
    [UndoRedoState] makes the property an array; [None] stands for a state
    object that has no array there. *)
Definition CAN_UNDO (state : value) : option bool :=
  option_map (fun undoCommands => Nat.ltb 0 (List.length undoCommands))
    (arrayProp "undoCommands" state).

(** The getter [CAN_REDO]: [state.redoCommands.length > 0]. *)
Definition CAN_REDO (state : value) : option bool :=
  option_map (fun redoCommands => Nat.ltb 0 (List.length redoCommands))
    (arrayProp "redoCommands" state).

(** An object whose properties hold functions (a tree of recipes, of
    mutations or of actions): the list of its entries, as [Object.entries]
    gives them.  [tree[k]] is the first entry named [k]. *)
Fixpoint getEntry {A : Type} (k : string) (tree : list (string * A))
  : option A :=
  match tree with
  | [] => None
  | (k', a) :: rest => if String.eqb k k' then Some a else getEntry k rest
  end.

(** The own properties that [{...payload}] copies.  A payload is an object
    or [undefined] ([P extends Record<string, unknown> | undefined]); the
    spread of [undefined] copies nothing. *)
Definition spread (payload : option (list (string * value)))
  : list (string * value) :=
  match payload with
  | Some props => props
  | None => []
  end.

(** [createPayloadAction]: the action calls [injectee.commit] with
    [{ ...payload, type: mutationType }].  The injectee is given by its
    [commit]; the mutation passed as second argument is not used. *)
Definition createPayloadAction {M T : Type} (mutationType : string)
    (_commandMutation : M) (commit : value -> T)
    (payload : option (list (string * value))) : T :=
  commit (Obj (setProp "type" (Str mutationType) (spread payload))).

(** [createPayloadActionTree]: [Object.fromEntries] of the entries of the
    mutation tree, each mutation replaced by its action. *)
Definition createPayloadActionTree {M T : Type}
    (commandMutationTree : list (string * M))
  : list (string * ((value -> T) -> option (list (string * value)) -> T)) :=
  map (fun entry => (fst entry, createPayloadAction (fst entry) (snd entry)))
    commandMutationTree.

(** [createCommandMutationTree]: [Object.fromEntries] of the entries of the
    recipe tree, each recipe replaced by its command mutation. *)
Definition createCommandMutationTree (P : Type)
    (produceWithPatches :
       value -> (value -> result value) ->
       result (value * list Patch * list Patch))
    (payloadRecipeTree : list (string * PayloadRecipe P))
  : list (string * (value -> P -> outcome)) :=
  map (fun entry =>
         (fst entry,
          createCommandMutation P produceWithPatches (snd entry)))
    payloadRecipeTree.

(** The actions [UNDO] and [REDO]: [commit(UNDO)], [commit(REDO)]. *)
Definition UNDO_action {T : Type} (commit : string -> T) : T := commit "UNDO".
Definition REDO_action {T : Type} (commit : string -> T) : T := commit "REDO".

(** The commands of a state in the order they were committed: the undo
    stack, then the redo stack from its top. *)
Definition timeline (state : value) : option (list value) :=
  match arrayProp "undoCommands" state, arrayProp "redoCommands" state with
  | Some us, Some rs => Some (us ++ List.rev rs)
  | _, _ => None
  end.

(** A call of one of the two mutations. *)
Inductive HistoryCall : Type := CallUndo | CallRedo.

(** The calls one after the other on the same state object; a call that
    throws ends the sequence. *)
Fixpoint calls (sequence : list HistoryCall) (state : value) : outcome :=
  match sequence with
  | [] => Returned state
  | call :: rest =>
      match (match call with CallUndo => UNDO | CallRedo => REDO end) state with
      | Returned state' => calls rest state'
      | Threw e state' => Threw e state'
      end
  end.

(** ** The project store *)

(** The mutation [SET_PROJECT_FILEPATH]:
    [state.projectFilePath = filePath] for the [{ filePath }] of the
    payload.  Destructuring [undefined] or [null] throws. *)
Definition SET_PROJECT_FILEPATH (state payload : value) : outcome :=
  if notNullish payload
  then Returned (setField "projectFilePath" (member payload "filePath") state)
  else Threw (TypeError "Cannot destructure property filePath") state.

(** The mutation [SET_SAVED_LAST_COMMAND_UNIX_MILLISEC]:
    [state.savedLastCommandUnixMillisec = unixMillisec]. *)
Definition SET_SAVED_LAST_COMMAND_UNIX_MILLISEC (state unixMillisec : value)
  : outcome :=
  Returned (setField "savedLastCommandUnixMillisec" unixMillisec state).

(** ** Voices, styles and default presets *)

(** The fields of [Voice], [StyleInfo], [CharacterInfo] and
    [ExperimentalSetting] that the components and the preset store read;
    the declarations themselves are in [@/type/preload].  The identifiers
    are strings, a style id is a number. *)
Record Voice : Type := mkVoice {
  engineId : string;
  speakerId : string;
  styleId : Z
}.

Record StyleInfo : Type := mkStyleInfo {
  style_engineId : string;
  style_styleId : Z;
  style_styleName : option string
}.

Record Metas : Type := mkMetas {
  speakerUuid : string;
  speakerName : string;
  styles : list StyleInfo
}.

Record CharacterInfo : Type := mkCharacterInfo { metas : Metas }.

(** An entry of [store.state.defaultStyleIds]. *)
Record DefaultStyleId : Type := mkDefaultStyleId {
  default_speakerUuid : string;
  defaultStyleId : Z
}.

Record ExperimentalSetting : Type := mkExperimentalSetting {
  enablePreset : bool;
  shouldApplyDefaultPresetOnVoiceChanged : bool
}.

Module CharacterButton.

(** [getDefaultStyle] of [CharacterSelectOption.vue], over the
    [characterInfos] of the props and the [defaultStyleIds] of the store
    state.  A style id compared with [===] to an [undefined] default never
    matches; [??] falls back to the first style; the [Error] thrown carries
    its message. *)
Definition getDefaultStyle (characterInfos : list CharacterInfo)
    (defaultStyleIds : list DefaultStyleId) (speakerUuid' : string)
  : result StyleInfo :=
  let characterInfo :=
    find (fun info => String.eqb (speakerUuid (metas info)) speakerUuid')
      characterInfos in
  let defaultStyleId' :=
    option_map defaultStyleId
      (find (fun x => String.eqb (default_speakerUuid x) speakerUuid')
         defaultStyleIds) in
  let defaultStyle :=
    match characterInfo with
    | None => None
    | Some info =>
        match find (fun style =>
                      match defaultStyleId' with
                      | Some d => Z.eqb (style_styleId style) d
                      | None => false
                      end) (styles (metas info)) with
        | Some style => Some style
        | None => nth_error (styles (metas info)) 0
        end
    end in
  match defaultStyle with
  | None => Throw (Thrown (Obj [("message", Str "defaultStyle == undefined")]))
  | Some style => Ok style
  end.

(** The predicate of [selectedCharacter] and [selectedStyleInfo] on a
    style. *)
Definition styleOf (selectedVoice : Voice) (style : StyleInfo) : bool :=
  String.eqb (style_engineId style) (engineId selectedVoice)
  && Z.eqb (style_styleId style) (styleId selectedVoice).

(** The computed [selectedCharacter]. *)
Definition selectedCharacter (characterInfos : list CharacterInfo)
    (selectedVoice : option Voice) : option CharacterInfo :=
  match selectedVoice with
  | None => None
  | Some voice =>
      find (fun characterInfo =>
              String.eqb (speakerUuid (metas characterInfo)) (speakerId voice)
              && existsb (styleOf voice) (styles (metas characterInfo)))
        characterInfos
  end.

(** The computed [selectedStyleInfo].  Without a selected voice
    [selectedVoice?.engineId] is [undefined], which no style has. *)
Definition selectedStyleInfo (characterInfos : list CharacterInfo)
    (selectedVoice : option Voice) : option StyleInfo :=
  match selectedCharacter characterInfos selectedVoice with
  | None => None
  | Some character =>
      match selectedVoice with
      | Some voice => find (styleOf voice) (styles (metas character))
      | None => None
      end
  end.

(** What a template literal prints for a style name. *)
Definition printStyleName (name : option string) : string :=
  match name with
  | Some s => s
  | None => "undefined"
  end.

(** The computed [selectedVoiceInfoText]. *)
Definition selectedVoiceInfoText (characterInfos : list CharacterInfo)
    (selectedVoice : option Voice) : string :=
  match selectedCharacter characterInfos selectedVoice with
  | None => "キャラクター未選択"
  | Some character =>
      match selectedStyleInfo characterInfos selectedVoice with
      | None => speakerName (metas character)
      | Some style =>
          (speakerName (metas character) ++ " ("
             ++ printStyleName (style_styleName style) ++ ")")%string
      end
  end.

(** [isSelectedItem]. *)
Definition isSelectedItem (characterInfos : list CharacterInfo)
    (selectedVoice : option Voice) (characterInfo : CharacterInfo) : bool :=
  match selectedCharacter characterInfos selectedVoice with
  | None => false
  | Some character =>
      String.eqb (speakerUuid (metas characterInfo))
        (speakerUuid (metas character))
  end.

End CharacterButton.

Module Preset.

Inductive Operation : Type := generate | copy | changeVoice.

Record Next : Type := mkNext {
  nextPresetKey : option string;
  shouldApplyPreset : bool
}.

Section WithVoiceId.

(** [VoiceId] of [@/type/preload], which names a voice by a string. *)
Variable VoiceId : Voice -> string.

(** [defaultPresetKeys] is a [Record<VoiceId, PresetKey>]: the list of its
    entries. *)
Definition getDefaultPresetKeyForVoice
    (defaultPresetKeys : list (string * string)) (voice : Voice)
  : option string :=
  getEntry (VoiceId voice) defaultPresetKeys.

(** [isDefaultPresetKey]: membership in the set of the values of
    [defaultPresetKeys]. *)
Definition isDefaultPresetKey (defaultPresetKeys : list (string * string))
    (presetKey : string) : bool :=
  existsb (String.eqb presetKey) (map snd defaultPresetKeys).

(** [determineNextPresetKey]. *)
Definition determineNextPresetKey
    (defaultPresetKeys : list (string * string))
    (experimentalSetting : ExperimentalSetting) (inheritAudioInfo : bool)
    (voice : Voice) (presetKeyCandidate : option string)
    (operation : Operation) : Next :=
  let defaultPresetKeyForCurrentVoice :=
    getEntry (VoiceId voice) defaultPresetKeys in
  match operation with
  | generate =>
      mkNext defaultPresetKeyForCurrentVoice
        (enablePreset experimentalSetting)
  | copy =>
      if inheritAudioInfo then mkNext presetKeyCandidate false
      else mkNext defaultPresetKeyForCurrentVoice
             (enablePreset experimentalSetting)
  | changeVoice =>
      if shouldApplyDefaultPresetOnVoiceChanged experimentalSetting
      then mkNext defaultPresetKeyForCurrentVoice true
      else
        let isDefaultPreset :=
          existsb (fun key =>
                     match presetKeyCandidate with
                     | Some candidate => String.eqb key candidate
                     | None => false
                     end) (map snd defaultPresetKeys) in
        mkNext (if isDefaultPreset then defaultPresetKeyForCurrentVoice
                else presetKeyCandidate) false
  end.

End WithVoiceId.

End Preset.

(** A patch whose path is plain and does not start at one of the two
    stacks. *)
Definition outsideHistory (patch : Patch) : bool :=
  plainPath (patch_path patch)
  && match patch_path patch with
     | first :: _ => negb (isHistory (segmentToString first))
     | [] => false
     end.

(** ** The preset store *)

Module PresetStore.

Section WithPreset.

(** The type [Preset] of [@/type/preload]; the store only passes presets
    on. *)
Variable Preset : Type.

(** [{ ...items, [k]: v }] on the entries of a record: an entry named [k]
    gets the new value where it is, otherwise the entry is added at the
    end. *)
Fixpoint setEntry (k : string) (v : Preset) (items : list (string * Preset))
  : list (string * Preset) :=
  match items with
  | [] => [(k, v)]
  | (k', v') :: rest =>
      if String.eqb k k' then (k', v) :: rest
      else (k', v') :: setEntry k v rest
  end.

(** [const { [k]: _, ...rest } = items]: the entries not named [k]. *)
Fixpoint withoutEntry (k : string) (items : list (string * Preset))
  : list (string * Preset) :=
  match items with
  | [] => []
  | (k', v') :: rest =>
      if String.eqb k k' then withoutEntry k rest
      else (k', v') :: withoutEntry k rest
  end.

(** What an action hands to [savePresetConfig]. *)
Record PresetConfig : Type := mkPresetConfig {
  presetItems : list (string * Preset);
  presetKeys : list string
}.

(** [addPreset], for the key that [uuidv4] gave: the configuration it
    saves; the action returns the key. *)
Definition addPreset (state : PresetConfig) (newKey : string)
    (presetData : Preset) : PresetConfig :=
  mkPresetConfig (setEntry newKey presetData (presetItems state))
    (newKey :: presetKeys state).

(** [updatePreset]: the configuration it saves. *)
Definition updatePreset (state : PresetConfig) (presetKey : string)
    (presetData : Preset) : PresetConfig :=
  mkPresetConfig (setEntry presetKey presetData (presetItems state))
    (if existsb (String.eqb presetKey) (presetKeys state)
     then presetKeys state
     else presetKey :: presetKeys state).

(** [deletePreset]: the configuration it saves. *)
Definition deletePreset (state : PresetConfig) (presetKey : string)
  : PresetConfig :=
  mkPresetConfig (withoutEntry presetKey (presetItems state))
    (filter (fun key => negb (String.eqb key presetKey)) (presetKeys state)).

(** Every key of [presetKeys] has a preset in [presetItems], and no key is
    listed twice. *)
Definition consistent (config : PresetConfig) : Prop :=
  NoDup (presetKeys config)
  /\ forall key, In key (presetKeys config) ->
                 getEntry key (presetItems config) <> None.

End WithPreset.

End PresetStore.

(** ** Own properties *)

Lemma getProp_setProp_eq (k : string) (v : value) props :
  getProp k (setProp k v props) = v.
Proof.
  induction props as [|[k' v'] rest IH]; simpl.
  - now rewrite String.eqb_refl.
  - destruct (String.eqb k k') eqn:E; simpl; rewrite E; auto.
Qed.

Lemma getProp_setProp_ne (k k' : string) (v : value) props :
  k' <> k -> getProp k' (setProp k v props) = getProp k' props.
Proof.
  intros Hne.
  induction props as [|[k0 v0] rest IH]; simpl.
  - apply String.eqb_neq in Hne. now rewrite Hne.
  - destruct (String.eqb k k0) eqn:E; simpl.
    + apply String.eqb_eq in E. subst k0.
      apply String.eqb_neq in Hne. now rewrite Hne.
    + now rewrite IH.
Qed.

Lemma getProp_deleteProp_ne (k k' : string) props :
  k' <> k -> getProp k' (deleteProp k props) = getProp k' props.
Proof.
  intros Hne.
  induction props as [|[k0 v0] rest IH]; simpl; auto.
  destruct (String.eqb k k0) eqn:E; simpl.
  - apply String.eqb_eq in E. subst k0.
    apply String.eqb_neq in Hne. now rewrite Hne.
  - now rewrite IH.
Qed.

Lemma getProp_hasProp (k : string) props :
  getProp k props <> Undefined -> hasProp k props = true.
Proof.
  induction props as [|[k' v'] rest IH]; simpl.
  - congruence.
  - destruct (String.eqb k k'); auto.
Qed.

Lemma setProp_names (k : string) (v : value) props :
  hasProp k props = true -> map fst (setProp k v props) = map fst props.
Proof.
  induction props as [|[k' v'] rest IH]; simpl.
  - discriminate.
  - destruct (String.eqb k k') eqn:E; simpl; auto.
    intros H. now rewrite IH.
Qed.

Lemma setProp_same (k : string) (v : value) props :
  hasProp k props = true -> getProp k props = v -> setProp k v props = props.
Proof.
  induction props as [|[k' v'] rest IH]; simpl.
  - discriminate.
  - destruct (String.eqb k k') eqn:E; simpl.
    + now intros _ ->.
    + intros H1 H2. now rewrite IH.
Qed.

Lemma hasProp_setProp (k k' : string) (v : value) props :
  hasProp k' props = true -> hasProp k' (setProp k v props) = true.
Proof.
  induction props as [|[k0 v0] rest IH]; simpl.
  - discriminate.
  - destruct (String.eqb k k0) eqn:E; simpl;
      destruct (String.eqb k' k0); auto.
Qed.

(** A history field that holds an array sits in an object. *)
Lemma arrayProp_history (k : string) (state : value) (elems : list value) :
  isHistory k = true ->
  arrayProp k state = Some elems ->
  exists props,
    state = Obj props /\ getProp k props = Arr elems /\ hasProp k props = true.
Proof.
  unfold isHistory, arrayProp. intros Hk H.
  destruct state; simpl in H; try discriminate.
  - apply orb_true_iff in Hk.
    destruct Hk as [Hk|Hk]; apply String.eqb_eq in Hk; subst k;
      simpl in H; discriminate.
  - exists props.
    destruct (getProp k props) eqn:G; try discriminate.
    inversion H; subst. repeat split; auto.
    apply getProp_hasProp. congruence.
Qed.

Lemma arrayProp_setProp_eq (k : string) (elems : list value) props :
  arrayProp k (Obj (setProp k (Arr elems) props)) = Some elems.
Proof.
  unfold arrayProp; simpl. now rewrite getProp_setProp_eq.
Qed.

Lemma arrayProp_setProp_ne (k k' : string) (v : value) props :
  k' <> k ->
  arrayProp k' (Obj (setProp k v props)) = arrayProp k' (Obj props).
Proof.
  intros Hne. unfold arrayProp; simpl. now rewrite getProp_setProp_ne.
Qed.

(** ** The frame of an operation *)

Lemma addMember_local (v : value) : local (addMember v).
Proof.
  intros props key object' H. simpl in H. inversion H; subst.
  eexists; split; [reflexivity|].
  intros k Hk. now apply getProp_setProp_ne.
Qed.

Lemma removeMember_local : local removeMember.
Proof.
  intros props key object' H. simpl in H.
  destruct (hasProp key props); inversion H; subst.
  eexists; split; [reflexivity|].
  intros k Hk. now apply getProp_deleteProp_ne.
Qed.

Lemma replaceMember_local (v : value) : local (replaceMember v).
Proof.
  intros props key object' H. simpl in H.
  destruct (hasProp key props); inversion H; subst.
  eexists; split; [reflexivity|].
  intros k Hk. now apply getProp_setProp_ne.
Qed.

(** A change below the property [token] of an object keeps every other
    property of that object. *)
Lemma modify_frame (leaf : value -> string -> option value)
    (token : string) (rest : list string) props (object' : value) :
  local leaf ->
  modify leaf (token :: rest) (Obj props) = Some object' ->
  exists props',
    object' = Obj props' /\
    forall k, k <> token -> getProp k props' = getProp k props.
Proof.
  intros Hleaf H. simpl in H. destruct rest as [|next rest].
  - now apply Hleaf.
  - destruct (modify leaf (next :: rest) (getProp token props)) as [child|];
      [|discriminate].
    now apply (replaceMember_local child) in H.
Qed.

(** The same for a pointer outside the history, whatever it leads to. *)
Lemma modify_history (leaf : value -> string -> option value)
    (path : value) (tokens : list string) props (object' : value) :
  local leaf ->
  pointerOf path = Some tokens ->
  pointsOutsideHistory path = true ->
  modify leaf tokens (Obj props) = Some object' ->
  exists props',
    object' = Obj props' /\
    forall k, isHistory k = true -> getProp k props' = getProp k props.
Proof.
  intros Hleaf Hp Hout H. unfold pointsOutsideHistory in Hout.
  rewrite Hp in Hout. destruct tokens as [|token rest].
  - discriminate.
  - destruct (modify_frame _ _ _ _ _ Hleaf H) as [props' [-> Hk]].
    exists props'. split; [reflexivity|].
    intros k Hhist. apply Hk. intros ->.
    rewrite Hhist in Hout. discriminate.
Qed.

Lemma settle_history (leaf : value -> string -> option value)
    (path : value) (tokens : list string) props :
  local leaf ->
  pointerOf path = Some tokens ->
  pointsOutsideHistory path = true ->
  exists props',
    fst (settle (Obj props) path (modify leaf tokens (Obj props))) = Obj props'
    /\ forall k, isHistory k = true -> getProp k props' = getProp k props.
Proof.
  intros Hleaf Hp Hout.
  destruct (modify leaf tokens (Obj props)) as [object'|] eqn:M; simpl.
  - destruct (modify_history _ _ _ _ _ Hleaf Hp Hout M) as [props' [-> Hk]].
    now exists props'.
  - now exists props.
Qed.

(** An operation that avoids the history leaves the state an object with
    the same two stacks, whether it succeeds or not. *)
Lemma apply_history (operation : value) props :
  avoidsHistory operation = true ->
  exists props',
    fst (apply (Obj props) operation) = Obj props' /\
    forall k, isHistory k = true -> getProp k props' = getProp k props.
Proof.
  unfold avoidsHistory. intros H. apply andb_true_iff in H.
  destruct H as [Hpath Hfrom]. unfold apply.
  destruct (member operation "op") as [| | | |op| |];
    try (now exists props).
  destruct (pointerOf (member operation "path")) as [tokens|] eqn:Hp;
    [|now exists props].
  unfold perform.
  destruct (String.eqb op "add");
    [now apply settle_history; [apply addMember_local| |]|].
  destruct (String.eqb op "remove");
    [now apply settle_history; [apply removeMember_local| |]|].
  destruct (String.eqb op "replace");
    [now apply settle_history; [apply replaceMember_local| |]|].
  destruct (String.eqb op "move").
  { destruct (pointerOf (member operation "from")) as [source|] eqn:Hs;
      [|now exists props].
    destruct (modify removeMember source (Obj props)) as [object'|] eqn:M;
      [|now exists props].
    destruct (modify_history _ _ _ _ _ removeMember_local Hs Hfrom M)
      as [props1 [-> H1]].
    destruct (modify (addMember (evaluate source (Obj props))) tokens
                (Obj props1)) as [object''|] eqn:M2; simpl;
      [|now exists props].
    destruct (modify_history _ _ _ _ _ (addMember_local _) Hp Hpath M2)
      as [props2 [-> H2]].
    exists props2. split; [reflexivity|].
    intros k Hk. now rewrite H2, H1. }
  destruct (String.eqb op "copy").
  { destruct (pointerOf (member operation "from")) as [source|];
      [|now exists props].
    destruct (equal (evaluate source (Obj props)) Undefined);
      [now exists props|].
    now apply settle_history; [apply addMember_local| |]. }
  destruct (String.eqb op "test"); [|now exists props].
  match goal with
  | |- context [if ?c then _ else _] => destruct c
  end; now exists props.
Qed.

Lemma applyPatch_history (patch : list value) props :
  forallb avoidsHistory patch = true ->
  exists props',
    fst (applyPatch (Obj props) patch) = Obj props' /\
    forall k, isHistory k = true -> getProp k props' = getProp k props.
Proof.
  revert props. induction patch as [|operation rest IH]; intros props H.
  - now exists props.
  - simpl in H. apply andb_true_iff in H. destruct H as [Hop Hrest].
    destruct (apply_history operation props Hop) as [props1 [E1 H1]].
    simpl. destruct (apply (Obj props) operation) as [object1 r] eqn:A.
    simpl in E1. subst object1.
    destruct (IH props1 Hrest) as [props2 [E2 H2]].
    destruct (applyPatch (Obj props1) rest) as [object2 rs] eqn:B.
    simpl in E2. subst object2. simpl.
    exists props2. split; [reflexivity|].
    intros k Hk. now rewrite H2, H1.
Qed.

(** The stacks of a state after a patch that avoids the history. *)
Lemma applyPatch_arrayProp (patch : list value) (state : value)
    (k : string) (elems : list value) :
  forallb avoidsHistory patch = true ->
  isHistory k = true ->
  arrayProp k state = Some elems ->
  arrayProp k (fst (applyPatch state patch)) = Some elems.
Proof.
  intros Hp Hk H.
  destruct (arrayProp_history _ _ _ Hk H) as [props [-> [G _]]].
  destruct (applyPatch_history patch props Hp) as [props' [-> Hf]].
  unfold arrayProp; simpl. now rewrite (Hf k Hk), G.
Qed.

(** ** The steps of the mutations *)

Lemma isHistory_undo : isHistory "undoCommands" = true.
Proof. reflexivity. Qed.

Lemma isHistory_redo : isHistory "redoCommands" = true.
Proof. reflexivity. Qed.

(** After a command moved from one stack to the other, the two stacks are
    the shortened source and the extended target. *)
Lemma moved_stacks (source target : string) (rest onto : list value)
    (command state : value) (elems : list value) :
  isHistory source = true -> source <> target ->
  arrayProp source state = Some elems ->
  arrayProp source (moved source target rest onto command state) = Some rest
  /\ arrayProp target (moved source target rest onto command state)
     = Some (onto ++ [command]).
Proof.
  intros Hs Hne H.
  destruct (arrayProp_history _ _ _ Hs H) as [props [-> _]].
  unfold moved. simpl setField. split.
  - rewrite arrayProp_setProp_ne by auto. apply arrayProp_setProp_eq.
  - apply arrayProp_setProp_eq.
Qed.

Lemma UNDO_empty (state : value) :
  arrayProp "undoCommands" state = Some [] -> UNDO state = Returned state.
Proof.
  intros H. unfold UNDO. rewrite H. simpl.
  destruct (arrayProp_history _ _ _ isHistory_undo H) as [props [-> [G Hh]]].
  simpl. now rewrite setProp_same.
Qed.

Lemma REDO_empty (state : value) :
  arrayProp "redoCommands" state = Some [] -> REDO state = Returned state.
Proof.
  intros H. unfold REDO. rewrite H. simpl.
  destruct (arrayProp_history _ _ _ isHistory_redo H) as [props [-> [G Hh]]].
  simpl. now rewrite setProp_same.
Qed.

Lemma UNDO_step (state command : value) (us rs patch : list value) :
  arrayProp "undoCommands" state = Some (us ++ [command]) ->
  arrayProp "redoCommands" state = Some rs ->
  notNullish command = true ->
  member command "undoOperation" = Arr patch ->
  UNDO state =
  Returned (fst (applyPatch
                   (moved "undoCommands" "redoCommands" us rs command state)
                   patch)).
Proof.
  intros Hu Hr Hc Hp. unfold UNDO. rewrite Hu.
  rewrite last_last, removelast_last, Hc.
  destruct (arrayProp_history _ _ _ isHistory_redo Hr) as [props [-> _]].
  simpl setField. rewrite arrayProp_setProp_ne by discriminate.
  rewrite Hr, Hp. reflexivity.
Qed.

Lemma REDO_step (state command : value) (us rs patch : list value) :
  arrayProp "undoCommands" state = Some us ->
  arrayProp "redoCommands" state = Some (rs ++ [command]) ->
  notNullish command = true ->
  member command "doOperation" = Arr patch ->
  REDO state =
  Returned (fst (applyPatch
                   (moved "redoCommands" "undoCommands" rs us command state)
                   patch)).
Proof.
  intros Hu Hr Hc Hp. unfold REDO. rewrite Hr.
  rewrite last_last, removelast_last, Hc.
  destruct (arrayProp_history _ _ _ isHistory_undo Hu) as [props [-> _]].
  simpl setField. rewrite arrayProp_setProp_ne by discriminate.
  rewrite Hu, Hp. reflexivity.
Qed.

(** The stacks after a step of [UNDO] or [REDO] whose patch avoids the
    history. *)
Lemma moved_patched (source target : string) (rest onto patch : list value)
    (command state : value) (elems : list value) :
  isHistory source = true -> isHistory target = true -> source <> target ->
  arrayProp source state = Some elems ->
  forallb avoidsHistory patch = true ->
  let final :=
    fst (applyPatch (moved source target rest onto command state) patch) in
  arrayProp source final = Some rest
  /\ arrayProp target final = Some (onto ++ [command]).
Proof.
  intros Hs Ht Hne H Hp final.
  destruct (moved_stacks source target rest onto command state elems Hs Hne H)
    as [M1 M2].
  split; now apply applyPatch_arrayProp.
Qed.

Section RecordingSteps.

Variable P : Type.
Variable produceWithPatches :
  value -> (value -> result value) ->
  result (value * list Patch * list Patch).

Let commit := createCommandMutation P produceWithPatches.
Let record := recordOperations P produceWithPatches.

Lemma recordOperations_ok (recipe : PayloadRecipe P) (state : value)
    (payload : P) (next : value) (doPatches undoPatches : list Patch) :
  produceWithPatches state (fun draft => recipe draft payload)
    = Ok (next, doPatches, undoPatches) ->
  record recipe state payload = Ok (commandOf doPatches undoPatches).
Proof.
  intros H. unfold record, recordOperations. now rewrite H.
Qed.

(** A commit whose forward script avoids the history: the script is
    applied, the command is pushed and the redo stack is emptied. *)
Lemma createCommandMutation_step (recipe : PayloadRecipe P)
    (state : value) (payload : P) (next : value)
    (doPatches undoPatches : list Patch) (us rs : list value) :
  produceWithPatches state (fun draft => recipe draft payload)
    = Ok (next, doPatches, undoPatches) ->
  forallb avoidsHistory (map patchToOperation doPatches) = true ->
  arrayProp "undoCommands" state = Some us ->
  arrayProp "redoCommands" state = Some rs ->
  commit recipe state payload =
  Returned
    (setField "redoCommands" (Arr [])
       (setField "undoCommands"
          (Arr (us ++ [commandOf doPatches undoPatches]))
          (fst (applyPatch state (map patchToOperation doPatches))))).
Proof.
  intros Hi Hf Hu Hr. unfold commit, createCommandMutation.
  fold record. rewrite (recordOperations_ok _ _ _ _ _ _ Hi).
  simpl member. cbv beta iota.
  pose proof (applyPatch_arrayProp _ _ _ _ Hf isHistory_undo Hu) as Hu'.
  pose proof (applyPatch_arrayProp _ _ _ _ Hf isHistory_redo Hr) as Hr'.
  rewrite Hu'.
  destruct (arrayProp_history _ _ _ isHistory_redo Hr') as [props [E _]].
  rewrite E in *. simpl setField.
  rewrite arrayProp_setProp_ne by discriminate.
  now rewrite Hr'.
Qed.

(** The stacks after such a commit. *)
Lemma createCommandMutation_stacks (recipe : PayloadRecipe P)
    (state : value) (payload : P) (next : value)
    (doPatches undoPatches : list Patch) (us rs : list value) :
  produceWithPatches state (fun draft => recipe draft payload)
    = Ok (next, doPatches, undoPatches) ->
  forallb avoidsHistory (map patchToOperation doPatches) = true ->
  arrayProp "undoCommands" state = Some us ->
  arrayProp "redoCommands" state = Some rs ->
  exists final,
    commit recipe state payload = Returned final
    /\ arrayProp "undoCommands" final
       = Some (us ++ [commandOf doPatches undoPatches])
    /\ arrayProp "redoCommands" final = Some [].
Proof.
  intros Hi Hf Hu Hr.
  rewrite (createCommandMutation_step _ _ _ _ _ _ _ _ Hi Hf Hu Hr).
  eexists; split; [reflexivity|].
  pose proof (applyPatch_arrayProp _ _ _ _ Hf isHistory_undo Hu) as Hu'.
  destruct (arrayProp_history _ _ _ isHistory_undo Hu') as [props [E _]].
  rewrite E. simpl setField. split.
  - rewrite arrayProp_setProp_ne by discriminate.
    apply arrayProp_setProp_eq.
  - apply arrayProp_setProp_eq.
Qed.

End RecordingSteps.

(** ** The emitted operations *)

(** C10.  Every operation of a recorded command is [patchToOperation] of a
    patch reported by immer, in the same order.  Its path is the string
    made of ['/'] and the path segments joined by ['/'], a key being copied
    as it is, with no escaping of ['/'] or ['~'].  It always has a [value]
    property, also for a remove patch, where it holds [undefined], and never
    a [from] property.  Two different segment sequences, [["a/b"]] and
    [["a", "b"]], give the same path string. *)
Theorem recorded_operation_shape (P : Type)
    (produceWithPatches :
       value -> (value -> result value) ->
       result (value * list Patch * list Patch))
    (recipe : PayloadRecipe P) (state : value) (payload : P)
    (next : value) (doPatches undoPatches : list Patch) :
  produceWithPatches state (fun draft => recipe draft payload)
    = Ok (next, doPatches, undoPatches) ->
  (exists command,
     recordOperations P produceWithPatches recipe state payload = Ok command
     /\ member command "doOperation" = Arr (map patchToOperation doPatches)
     /\ member command "undoOperation"
        = Arr (map patchToOperation undoPatches))
  /\ (forall patch : Patch,
        exists props,
          patchToOperation patch = Obj props
          /\ getProp "op" props = Str (opName (patch_op patch))
          /\ getProp "path" props
             = Str ("/" ++ join "/" (map segmentToString (patch_path patch)))
          /\ hasProp "value" props = true
          /\ getProp "value" props = patch_value patch
          /\ hasProp "from" props = false)
  /\ (forall key : string, segmentToString (Key key) = key)
  /\ member (patchToOperation (mkPatch PRemove [Key "a/b"] Undefined)) "value"
     = Undefined
  /\ member (patchToOperation (mkPatch PReplace [Key "m~n"] Null)) "path"
     = Str "/m~n"
  /\ [Key "a/b"] <> [Key "a"; Key "b"]
  /\ member (patchToOperation (mkPatch PRemove [Key "a/b"] Undefined)) "path"
     = member (patchToOperation
                 (mkPatch PRemove [Key "a"; Key "b"] Undefined)) "path".
Proof.
  intros H. repeat split; try discriminate.
  - exists (commandOf doPatches undoPatches). repeat split.
    unfold recordOperations. now rewrite H.
  - intros patch. eexists. repeat split.
Qed.

Lemma recorded_operation_shape_witness :
  member (patchToOperation Scenario.removeC) "path" = Str "/items/2"
  /\ exists command,
       recordOperations value StructuralDiffer.produceWithPatches
         Scenario.append (Scenario.store [Str "a"; Str "b"] [] []) (Str "c")
       = Ok command
       /\ member command "undoOperation"
          = Arr [patchToOperation Scenario.removeC].
Proof.
  split; [reflexivity|].
  destruct (recorded_operation_shape value StructuralDiffer.produceWithPatches
              Scenario.append (Scenario.store [Str "a"; Str "b"] [] [])
              (Str "c")
              (Scenario.store [Str "a"; Str "b"; Str "c"] [] [])
              [Scenario.addC] [Scenario.removeC])
    as [[command [Hrec [_ Hundo]]] _].
  - vm_compute. reflexivity.
  - exists command. split; assumption.
Defined.

(** ** Clearing the history *)

(** C9.  [CLEAR_COMMANDS] on a state whose two stacks are arrays returns
    with both stacks empty; the state object keeps its properties, in the
    same order, and every property other than the two stacks keeps its
    value. *)
Theorem CLEAR_COMMANDS_frame (state : value) (us rs : list value) :
  arrayProp "undoCommands" state = Some us ->
  arrayProp "redoCommands" state = Some rs ->
  exists props props',
    state = Obj props
    /\ CLEAR_COMMANDS state = Returned (Obj props')
    /\ getProp "undoCommands" props' = Arr []
    /\ getProp "redoCommands" props' = Arr []
    /\ map fst props' = map fst props
    /\ forall k,
         k <> "undoCommands" -> k <> "redoCommands" ->
         getProp k props' = getProp k props.
Proof.
  intros Hu Hr.
  destruct (arrayProp_history _ _ _ isHistory_undo Hu) as [props [-> [_ Hhu]]].
  destruct (arrayProp_history _ _ _ isHistory_redo Hr) as [props0 [E [_ Hhr]]].
  injection E as E. subst props0.
  exists props,
    (setProp "undoCommands" (Arr []) (setProp "redoCommands" (Arr []) props)).
  split; [reflexivity|]. split.
  - unfold CLEAR_COMMANDS. rewrite Hr. simpl setField.
    rewrite arrayProp_setProp_ne by discriminate. now rewrite Hu.
  - repeat split.
    + apply getProp_setProp_eq.
    + rewrite getProp_setProp_ne by discriminate. apply getProp_setProp_eq.
    + rewrite setProp_names by now apply hasProp_setProp.
      now apply setProp_names.
    + intros k H1 H2. now rewrite !getProp_setProp_ne.
Qed.

Lemma CLEAR_COMMANDS_frame_witness :
  let state :=
    Scenario.store [Str "a"] [Scenario.stale] [Scenario.stale; Scenario.stale]
  in
  exists props props',
    state = Obj props
    /\ CLEAR_COMMANDS state = Returned (Obj props')
    /\ getProp "undoCommands" props' = Arr []
    /\ getProp "redoCommands" props' = Arr []
    /\ map fst props' = map fst props
    /\ forall k,
         k <> "undoCommands" -> k <> "redoCommands" ->
         getProp k props' = getProp k props.
Proof.
  intros state.
  apply (CLEAR_COMMANDS_frame state
           [Scenario.stale] [Scenario.stale; Scenario.stale]);
    vm_compute; reflexivity.
Defined.


(** ** Commits *)

(** C5.  Whenever a command mutation returns, the redo stack of the state
    is the empty array, whatever it held before. *)
Theorem commit_clears_redo (P : Type)
    (produceWithPatches :
       value -> (value -> result value) ->
       result (value * list Patch * list Patch))
    (recipe : PayloadRecipe P) (state : value) (payload : P)
    (final : value) :
  createCommandMutation P produceWithPatches recipe state payload
    = Returned final ->
  arrayProp "redoCommands" final = Some [].
Proof.
  unfold createCommandMutation.
  destruct (recordOperations P produceWithPatches recipe state payload)
    as [command|e]; [|discriminate].
  destruct (member command "doOperation") as [| | | | |patch|];
    try discriminate.
  destruct (arrayProp "undoCommands" (fst (applyPatch state patch)))
    as [undoCommands|]; [|discriminate].
  match goal with
  | |- context [arrayProp "redoCommands" ?s] =>
      destruct (arrayProp "redoCommands" s) as [redoCommands|] eqn:Hr
  end; [|discriminate].
  intros H. injection H as <-.
  destruct (arrayProp_history _ _ _ isHistory_redo Hr) as [props [-> _]].
  apply arrayProp_setProp_eq.
Qed.

Lemma commit_clears_redo_witness :
  exists final,
    createCommandMutation value StructuralDiffer.produceWithPatches
      Scenario.append
      (Scenario.store [Str "a"; Str "b"] [] [Scenario.stale; Scenario.stale])
      (Str "c")
    = Returned final
    /\ arrayProp "redoCommands" final = Some [].
Proof.
  eexists. split.
  - vm_compute. reflexivity.
  - eapply (commit_clears_redo value StructuralDiffer.produceWithPatches
              Scenario.append
              (Scenario.store [Str "a"; Str "b"] []
                 [Scenario.stale; Scenario.stale])
              (Str "c")).
    vm_compute. reflexivity.
Defined.






(** C4.  When the recipe throws on the draft and immer lets the exception
    of a recipe through, recording throws that exception and produces no
    command; the command mutation throws it too, and the state object,
    both stacks included, is the one it was called with. *)
Theorem recipe_failure_atomic (P : Type)
    (produceWithPatches :
       value -> (value -> result value) ->
       result (value * list Patch * list Patch))
    (recipe : PayloadRecipe P) (state : value) (payload : P) (e : exn) :
  (forall f e', f state = Throw e' -> produceWithPatches state f = Throw e') ->
  recipe state payload = Throw e ->
  recordOperations P produceWithPatches recipe state payload = Throw e
  /\ createCommandMutation P produceWithPatches recipe state payload
     = Threw e state
  /\ finalState
       (createCommandMutation P produceWithPatches recipe state payload)
     = state.
Proof.
  intros Himmer Hrecipe.
  pose proof (Himmer (fun draft => recipe draft payload) e Hrecipe) as Hi.
  assert (Hrec : recordOperations P produceWithPatches recipe state payload
                 = Throw e).
  { unfold recordOperations. now rewrite Hi. }
  unfold createCommandMutation. rewrite Hrec. auto.
Qed.

Lemma recipe_failure_atomic_witness :
  let state := Scenario.store [Str "a"] [Scenario.stale] [Scenario.stale] in
  createCommandMutation value StructuralDiffer.produceWithPatches
    Scenario.failing state (Str "boom")
  = Threw (Thrown (Str "boom")) state.
Proof.
  intros state.
  apply (recipe_failure_atomic value StructuralDiffer.produceWithPatches
           Scenario.failing state (Str "boom") (Thrown (Str "boom"))).
  - intros f e' Hf. unfold StructuralDiffer.produceWithPatches.
    now rewrite Hf.
  - reflexivity.
Defined.

(** ** Undo and redo *)

(** C6.  On a state whose two stacks are arrays: [UNDO] with an empty undo
    stack returns and leaves the state object as it was, and so does [REDO]
    with an empty redo stack.  With a last command on the undo stack whose
    [undoOperation] avoids the history, [UNDO] returns the state obtained by
    taking that command off the undo stack, appending it to the redo stack
    and applying its [undoOperation]; the undo stack has lost the command
    and the redo stack ends with it.  [REDO] does the same with the roles
    of the stacks exchanged and with [doOperation]. *)
Theorem undo_redo_semantics (state : value) (us rs : list value) :
  arrayProp "undoCommands" state = Some us ->
  arrayProp "redoCommands" state = Some rs ->
  (us = [] -> UNDO state = Returned state)
  /\ (rs = [] -> REDO state = Returned state)
  /\ (forall rest command patch,
        us = rest ++ [command] ->
        notNullish command = true ->
        member command "undoOperation" = Arr patch ->
        forallb avoidsHistory patch = true ->
        exists final,
          UNDO state = Returned final
          /\ final = fst (applyPatch
                            (moved "undoCommands" "redoCommands"
                               rest rs command state) patch)
          /\ arrayProp "undoCommands" final = Some rest
          /\ arrayProp "redoCommands" final = Some (rs ++ [command]))
  /\ (forall rest command patch,
        rs = rest ++ [command] ->
        notNullish command = true ->
        member command "doOperation" = Arr patch ->
        forallb avoidsHistory patch = true ->
        exists final,
          REDO state = Returned final
          /\ final = fst (applyPatch
                            (moved "redoCommands" "undoCommands"
                               rest us command state) patch)
          /\ arrayProp "redoCommands" final = Some rest
          /\ arrayProp "undoCommands" final = Some (us ++ [command])).
Proof.
  intros Hu Hr. repeat split.
  - intros ->. now apply UNDO_empty.
  - intros ->. now apply REDO_empty.
  - intros rest command patch -> Hc Hp Hf.
    eexists. split; [exact (UNDO_step _ _ _ _ _ Hu Hr Hc Hp)|].
    split; [reflexivity|].
    apply (moved_patched "undoCommands" "redoCommands" rest rs patch command
             state (rest ++ [command])); auto. discriminate.
  - intros rest command patch -> Hc Hp Hf.
    eexists. split; [exact (REDO_step _ _ _ _ _ Hu Hr Hc Hp)|].
    split; [reflexivity|].
    apply (moved_patched "redoCommands" "undoCommands" rest us patch command
             state (rest ++ [command])); auto. discriminate.
Qed.

Lemma undo_redo_semantics_witness :
  let command := commandOf [Scenario.addC] [Scenario.removeC] in
  UNDO (Scenario.store [Str "a"; Str "b"; Str "c"] [command] [])
  = Returned (Scenario.store [Str "a"; Str "b"] [] [command])
  /\ REDO (Scenario.store [Str "a"; Str "b"; Str "c"] [command] [])
     = Returned (Scenario.store [Str "a"; Str "b"; Str "c"] [command] []).
Proof.
  intros command.
  destruct (undo_redo_semantics
              (Scenario.store [Str "a"; Str "b"; Str "c"] [command] [])
              [command] [] eq_refl eq_refl)
    as [_ [Hredo [Hundo _]]].
  split.
  - destruct (Hundo [] command [patchToOperation Scenario.removeC]
                eq_refl eq_refl eq_refl eq_refl) as [final [H [E _]]].
    rewrite H, E. vm_compute. reflexivity.
  - apply Hredo. reflexivity.
Defined.

(** ** Operations that fail *)

(** C3, as the code has it.  Take a command on top of the undo stack whose
    [undoOperation] and [doOperation] avoid the history, and let some
    operation fail, either of its [undoOperation] during [UNDO] or of its
    [doOperation] during the [REDO] after it: [applyPatch] reports the
    failure in its list of results, which the mutations do not look at.
    [UNDO] returns, and the command has moved to the redo stack.  The
    following [REDO] is carried out: it returns and moves the command back,
    and so is an [UNDO] after that. *)
Theorem failed_operations_discarded (state command : value)
    (us rs undoPatch doPatch : list value) (err : PatchError) :
  arrayProp "undoCommands" state = Some (us ++ [command]) ->
  arrayProp "redoCommands" state = Some rs ->
  notNullish command = true ->
  member command "undoOperation" = Arr undoPatch ->
  member command "doOperation" = Arr doPatch ->
  forallb avoidsHistory undoPatch = true ->
  forallb avoidsHistory doPatch = true ->
  In (Some err)
     (snd (applyPatch
             (moved "undoCommands" "redoCommands" us rs command state)
             undoPatch))
  \/ In (Some err)
        (snd (applyPatch
                (moved "redoCommands" "undoCommands" rs us command
                   (fst (applyPatch
                           (moved "undoCommands" "redoCommands" us rs
                              command state)
                           undoPatch)))
                doPatch)) ->
  exists afterUndo afterRedo afterSecondUndo,
    UNDO state = Returned afterUndo
    /\ arrayProp "undoCommands" afterUndo = Some us
    /\ arrayProp "redoCommands" afterUndo = Some (rs ++ [command])
    /\ REDO afterUndo = Returned afterRedo
    /\ arrayProp "undoCommands" afterRedo = Some (us ++ [command])
    /\ arrayProp "redoCommands" afterRedo = Some rs
    /\ UNDO afterRedo = Returned afterSecondUndo
    /\ arrayProp "undoCommands" afterSecondUndo = Some us
    /\ arrayProp "redoCommands" afterSecondUndo = Some (rs ++ [command]).
Proof.
  intros Hu Hr Hc Hup Hdp Hfu Hfd _.
  destruct (moved_patched "undoCommands" "redoCommands" us rs undoPatch
              command state _ isHistory_undo isHistory_redo
              ltac:(discriminate) Hu Hfu) as [Hu1 Hr1].
  destruct (moved_patched "redoCommands" "undoCommands" rs us doPatch
              command _ _ isHistory_redo isHistory_undo
              ltac:(discriminate) Hr1 Hfd) as [Hr2 Hu2].
  destruct (moved_patched "undoCommands" "redoCommands" us rs undoPatch
              command _ _ isHistory_undo isHistory_redo
              ltac:(discriminate) Hu2 Hfu) as [Hu3 Hr3].
  do 3 eexists.
  split; [exact (UNDO_step _ _ _ _ _ Hu Hr Hc Hup)|].
  split; [exact Hu1|]. split; [exact Hr1|].
  split; [exact (REDO_step _ _ _ _ _ Hu1 Hr1 Hc Hdp)|].
  split; [exact Hu2|]. split; [exact Hr2|].
  split; [exact (UNDO_step _ _ _ _ _ Hu2 Hr2 Hc Hup)|].
  split; [exact Hu3|exact Hr3].
Qed.

Lemma failed_operations_discarded_witness :
  let state := Scenario.store [Str "a"] [Scenario.stale] [] in
  exists afterUndo afterRedo afterSecondUndo,
    UNDO state = Returned afterUndo
    /\ arrayProp "undoCommands" afterUndo = Some []
    /\ arrayProp "redoCommands" afterUndo = Some [Scenario.stale]
    /\ REDO afterUndo = Returned afterRedo
    /\ arrayProp "undoCommands" afterRedo = Some [Scenario.stale]
    /\ arrayProp "redoCommands" afterRedo = Some []
    /\ UNDO afterRedo = Returned afterSecondUndo
    /\ arrayProp "undoCommands" afterSecondUndo = Some []
    /\ arrayProp "redoCommands" afterSecondUndo = Some [Scenario.stale].
Proof.
  intros state.
  apply (failed_operations_discarded state Scenario.stale [] []
           [patchToOperation (mkPatch PRemove [Key "ghost"] Undefined)]
           [patchToOperation (mkPatch PAdd [Key "ghost"] (Num 1))]
           (MissingError (Str "/ghost")));
    try reflexivity.
  left. vm_compute. left. reflexivity.
Defined.

(** C3, as the claim states it, fails.  The undo script of the command on
    the stack removes a property the state does not have.  The operation
    fails and is reported as a [MissingError]; [UNDO] does not throw; the
    [REDO] that follows is not refused: it applies the forward script and
    moves the command back to the undo stack.  The same holds for a command
    whose undo script is a [test] that does not match. *)
Lemma corrupt_history_not_raised :
  let state := Scenario.store [Str "a"] [Scenario.stale] [] in
  let afterUndo := Scenario.store [Str "a"] [] [Scenario.stale] in
  snd (applyPatch
         (moved "undoCommands" "redoCommands" [] [] Scenario.stale state)
         [patchToOperation (mkPatch PRemove [Key "ghost"] Undefined)])
  = [Some (MissingError (Str "/ghost"))]
  /\ UNDO state = Returned afterUndo
  /\ (forall e final, UNDO state <> Threw e final)
  /\ REDO afterUndo
     = Returned (Obj [ ("items", Arr [Str "a"]);
                       ("undoCommands", Arr [Scenario.stale]);
                       ("redoCommands", Arr []);
                       ("ghost", Num 1) ])
  /\ REDO afterUndo <> Returned afterUndo
  /\ (forall e final, REDO afterUndo <> Threw e final)
  /\ snd (applyPatch
            (moved "undoCommands" "redoCommands" [] [] Scenario.checked
               (Scenario.store [Str "a"] [Scenario.checked] []))
            [Obj [ ("op", Str "test"); ("path", Str "/items/0");
                   ("value", Str "z") ]])
     = [Some (TestError (Str "a") (Str "z"))]
  /\ UNDO (Scenario.store [Str "a"] [Scenario.checked] [])
     = Returned (Scenario.store [Str "a"] [] [Scenario.checked])
  /\ REDO (Scenario.store [Str "a"] [] [Scenario.checked])
     = Returned (Scenario.store [Str "a"] [Scenario.checked] []).
Proof.
  intros state afterUndo.
  assert (Hundo : UNDO state = Returned afterUndo) by (vm_compute; reflexivity).
  assert (Hredo : REDO afterUndo
                  = Returned (Obj [ ("items", Arr [Str "a"]);
                                    ("undoCommands", Arr [Scenario.stale]);
                                    ("redoCommands", Arr []);
                                    ("ghost", Num 1) ]))
    by (vm_compute; reflexivity).
  split; [vm_compute; reflexivity|].
  split; [exact Hundo|].
  split; [intros e final; rewrite Hundo; discriminate|].
  split; [exact Hredo|].
  split; [rewrite Hredo; discriminate|].
  split; [intros e final; rewrite Hredo; discriminate|].
  repeat split; vm_compute; reflexivity.
Qed.

(** ** Sequences of commits *)

(** C8.  Start from a state whose two stacks are empty arrays.  Commit a
    recipe that records command [A], commit one that records [B], undo, and
    commit one that records [C], the operations of the three commands
    avoiding the history.  Every step returns, and at the end the undo
    stack is [[A, C]] and the redo stack is empty. *)
Theorem stack_bookkeeping (P : Type)
    (produceWithPatches :
       value -> (value -> result value) ->
       result (value * list Patch * list Patch))
    (recipeA recipeB recipeC : PayloadRecipe P)
    (payloadA payloadB payloadC : P) (state0 : value)
    (nextA nextB nextC : value)
    (doA undoA doB undoB doC undoC : list Patch) :
  let commit := createCommandMutation P produceWithPatches in
  let A := commandOf doA undoA in
  let B := commandOf doB undoB in
  let C := commandOf doC undoC in
  let state1 := finalState (commit recipeA state0 payloadA) in
  let state2 := finalState (commit recipeB state1 payloadB) in
  let state3 := finalState (UNDO state2) in
  let state4 := finalState (commit recipeC state3 payloadC) in
  arrayProp "undoCommands" state0 = Some [] ->
  arrayProp "redoCommands" state0 = Some [] ->
  produceWithPatches state0 (fun draft => recipeA draft payloadA)
    = Ok (nextA, doA, undoA) ->
  produceWithPatches state1 (fun draft => recipeB draft payloadB)
    = Ok (nextB, doB, undoB) ->
  produceWithPatches state3 (fun draft => recipeC draft payloadC)
    = Ok (nextC, doC, undoC) ->
  historyFree A = true ->
  historyFree B = true ->
  historyFree C = true ->
  commit recipeA state0 payloadA = Returned state1
  /\ commit recipeB state1 payloadB = Returned state2
  /\ UNDO state2 = Returned state3
  /\ commit recipeC state3 payloadC = Returned state4
  /\ arrayProp "undoCommands" state4 = Some [A; C]
  /\ arrayProp "redoCommands" state4 = Some [].
Proof.
  intros commit A B C state1 state2 state3 state4
    Hu0 Hr0 HiA HiB HiC HfA HfB HfC.
  unfold historyFree in HfA, HfB, HfC. simpl in HfA, HfB, HfC.
  apply andb_true_iff in HfA, HfB, HfC.
  destruct HfA as [HdA _], HfB as [HdB HuB], HfC as [HdC _].
  destruct (createCommandMutation_stacks P produceWithPatches _ _ _ _ _ _
              _ _ HiA HdA Hu0 Hr0) as [s1 [E1 [Hu1 Hr1]]].
  assert (S1 : state1 = s1) by (unfold state1, commit; now rewrite E1).
  rewrite <- S1 in *. clear S1 s1. simpl in Hu1.
  destruct (createCommandMutation_stacks P produceWithPatches _ _ _ _ _ _
              _ _ HiB HdB Hu1 Hr1) as [s2 [E2 [Hu2 Hr2]]].
  assert (S2 : state2 = s2) by (unfold state2, commit; now rewrite E2).
  rewrite <- S2 in *. clear S2 s2.
  pose proof (UNDO_step state2 B [A] [] _ Hu2 Hr2 eq_refl eq_refl) as E3.
  destruct (moved_patched "undoCommands" "redoCommands" [A] [] _ B state2 _
              isHistory_undo isHistory_redo ltac:(discriminate) Hu2 HuB)
    as [Hu3 Hr3].
  assert (S3 : state3
               = fst (applyPatch
                        (moved "undoCommands" "redoCommands" [A] [] B state2)
                        (map patchToOperation undoB)))
    by (unfold state3; now rewrite E3).
  rewrite <- S3 in *. clear S3.
  destruct (createCommandMutation_stacks P produceWithPatches _ _ _ _ _ _
              _ _ HiC HdC Hu3 Hr3) as [s4 [E4 [Hu4 Hr4]]].
  assert (S4 : state4 = s4) by (unfold state4, commit; now rewrite E4).
  rewrite <- S4 in *. clear S4 s4.
  repeat split; assumption.
Qed.

Lemma stack_bookkeeping_witness :
  let commit :=
    createCommandMutation value StructuralDiffer.produceWithPatches
      Scenario.append in
  let state0 := Scenario.store [] [] [] in
  let state1 := finalState (commit state0 (Str "a")) in
  let state2 := finalState (commit state1 (Str "b")) in
  let state3 := finalState (UNDO state2) in
  let state4 := finalState (commit state3 (Str "c")) in
  let A := commandOf [mkPatch PAdd [Key "items"; Index 0] (Str "a")]
                     [mkPatch PRemove [Key "items"; Index 0] Undefined] in
  let C := commandOf [mkPatch PAdd [Key "items"; Index 1] (Str "c")]
                     [mkPatch PRemove [Key "items"; Index 1] Undefined] in
  state4 = Scenario.store [Str "a"; Str "c"] [A; C] []
  /\ arrayProp "undoCommands" state4 = Some [A; C]
  /\ arrayProp "redoCommands" state4 = Some [].
Proof.
  intros commit state0 state1 state2 state3 state4 A C.
  split; [vm_compute; reflexivity|].
  apply (stack_bookkeeping value StructuralDiffer.produceWithPatches
           Scenario.append Scenario.append Scenario.append
           (Str "a") (Str "b") (Str "c") state0
           (Scenario.store [Str "a"] [] [])
           (Scenario.store [Str "a"; Str "b"] [A] [])
           (Scenario.store [Str "a"; Str "c"] [A]
              [commandOf [mkPatch PAdd [Key "items"; Index 1] (Str "b")]
                         [mkPatch PRemove [Key "items"; Index 1] Undefined]])
           [mkPatch PAdd [Key "items"; Index 0] (Str "a")]
           [mkPatch PRemove [Key "items"; Index 0] Undefined]
           [mkPatch PAdd [Key "items"; Index 1] (Str "b")]
           [mkPatch PRemove [Key "items"; Index 1] Undefined]
           [mkPatch PAdd [Key "items"; Index 1] (Str "c")]
           [mkPatch PRemove [Key "items"; Index 1] Undefined]);
    vm_compute; reflexivity.
Defined.

(** ** Appending to a list *)

(** C2.  The state holds the items ["a"] and ["b"] and empty stacks, and the
    recipe appends ["c"].  immer reports the patch that adds ["c"] at
    [["items", 2]] and, as its inverse, the patch that replaces
    [["items", "length"]] by [2].  The recorded command has the one forward
    operation [add] at the pointer to [items], [2] with value ["c"] and the
    one backward operation [replace] at the pointer to [items], [length]
    with value [2].  The commit returns with the items ["a"], ["b"], ["c"];
    [UNDO] then returns with ["a"], ["b"]; [REDO] after it returns with
    ["a"], ["b"], ["c"] again. *)
Theorem append_scenario_immer :
  let immer := Immer.produceWithPatches [] in
  let state := Scenario.store [Str "a"; Str "b"] [] [] in
  let command :=
    Obj [ ("doOperation",
           Arr [Obj [ ("op", Str "add"); ("path", Str "/items/2");
                      ("value", Str "c") ]]);
          ("undoOperation",
           Arr [Obj [ ("op", Str "replace"); ("path", Str "/items/length");
                      ("value", Num 2) ]]) ] in
  let committed := Scenario.store [Str "a"; Str "b"; Str "c"] [command] [] in
  let undone := Scenario.store [Str "a"; Str "b"] [] [command] in
  Scenario.append state (Str "c")
    = Ok (Scenario.store [Str "a"; Str "b"; Str "c"] [] [])
  /\ immer state (fun draft => Scenario.append draft (Str "c"))
     = Ok (Scenario.store [Str "a"; Str "b"; Str "c"] [] [],
           [Scenario.addC],
           [mkPatch PReplace [Key "items"; Key "length"] (Num 2)])
  /\ recordOperations value immer Scenario.append state (Str "c")
     = Ok command
  /\ pointerOf (Str "/items/2") = Some ["items"; "2"]
  /\ pointerOf (Str "/items/length") = Some ["items"; "length"]
  /\ createCommandMutation value immer Scenario.append state (Str "c")
     = Returned committed
  /\ member committed "items" = Arr [Str "a"; Str "b"; Str "c"]
  /\ UNDO committed = Returned undone
  /\ member undone "items" = Arr [Str "a"; Str "b"]
  /\ REDO undone = Returned committed.
Proof.
  intros immer state command committed undone.
  repeat split; vm_compute; reflexivity.
Qed.

(** C2, as the claim states it, fails.  For the state with the items ["a"]
    and ["b"] and the recipe that appends ["c"], the recorded
    [undoOperation] is not the removal of [["items", 2]]: it sets the
    length of [items] to [2]. *)
Lemma append_undo_is_not_remove :
  let state := Scenario.store [Str "a"; Str "b"] [] [] in
  exists command,
    recordOperations value (Immer.produceWithPatches []) Scenario.append
      state (Str "c") = Ok command
    /\ member command "doOperation" = Arr [patchToOperation Scenario.addC]
    /\ member command "undoOperation"
       = Arr [Obj [ ("op", Str "replace"); ("path", Str "/items/length");
                    ("value", Num 2) ]]
    /\ member command "undoOperation"
       <> Arr [patchToOperation Scenario.removeC].
Proof.
  intros state. eexists. split; [vm_compute; reflexivity|].
  split; [reflexivity|]. split; [reflexivity|].
  vm_compute. discriminate.
Qed.

(** ** The pointer of a recorded operation *)

Lemma split_plain (s : string) : plain s = true -> split "/" s = [s].
Proof.
  induction s as [|c rest IH]; simpl; auto.
  intros H. apply andb_true_iff in H. destruct H as [H Hrest].
  apply andb_true_iff in H. destruct H as [Hc _].
  apply negb_true_iff in Hc. rewrite Hc, (IH Hrest). reflexivity.
Qed.

Lemma split_append (s t : string) :
  plain s = true ->
  split "/" (s ++ String "/" t) = s :: split "/" t.
Proof.
  induction s as [|c rest IH]; simpl; auto.
  intros H. apply andb_true_iff in H. destruct H as [H Hrest].
  apply andb_true_iff in H. destruct H as [Hc _].
  apply negb_true_iff in Hc. rewrite Hc, (IH Hrest). reflexivity.
Qed.

Lemma split_join (parts : list string) :
  parts <> [] ->
  forallb plain parts = true ->
  split "/" (join "/" parts) = parts.
Proof.
  induction parts as [|s rest IH]; [congruence|].
  intros _ H. simpl in H. apply andb_true_iff in H. destruct H as [Hs Hrest].
  destruct rest as [|t rest].
  - simpl. now apply split_plain.
  - change (join "/" (s :: t :: rest))
      with (s ++ String "/" (join "/" (t :: rest)))%string.
    rewrite split_append by assumption.
    rewrite IH; auto. discriminate.
Qed.

Lemma replacePair_plain (b c : ascii) (s : string) :
  plain s = true -> replacePair "~" b c s = s.
Proof.
  induction s as [|x rest IH]; simpl; auto.
  intros H. apply andb_true_iff in H. destruct H as [H Hrest].
  apply andb_true_iff in H. destruct H as [_ Hx].
  apply negb_true_iff in Hx.
  destruct rest as [|y rest']; auto.
  rewrite Hx. simpl. f_equal. now apply IH.
Qed.

Lemma unescape_plain (s : string) : plain s = true -> unescape s = s.
Proof.
  intros H. unfold unescape.
  rewrite (replacePair_plain "1" "/" s H). now apply replacePair_plain.
Qed.

Lemma map_unescape_plain (parts : list string) :
  forallb plain parts = true -> map unescape parts = parts.
Proof.
  induction parts as [|s rest IH]; simpl; auto.
  intros H. apply andb_true_iff in H. destruct H as [Hs Hrest].
  now rewrite unescape_plain, IH.
Qed.

(** Joining plain parts behind a slash and reading the result as a pointer
    gives the parts back. *)
Lemma fromJSON_join (parts : list string) :
  parts <> [] ->
  forallb plain parts = true ->
  fromJSON ("/" ++ join "/" parts) = Some parts.
Proof.
  intros Hne H. unfold fromJSON.
  change (split "/" ("/" ++ join "/" parts))
    with (EmptyString :: split "/" (join "/" parts)).
  rewrite split_join by assumption.
  simpl. now rewrite map_unescape_plain.
Qed.

Lemma plain_uint (d : Decimal.uint) : plain (NilEmpty.string_of_uint d) = true.
Proof.
  induction d; simpl; auto.
Qed.

Lemma plain_index (n : nat) : plain (indexToString n) = true.
Proof. apply plain_uint. Qed.

Lemma forallb_plain_segments (path : list PathSegment) :
  forallb plain (map segmentToString path)
  = forallb (fun seg => plain (segmentToString seg)) path.
Proof.
  induction path as [|seg rest IH]; simpl; congruence.
Qed.

(** The path recorded for a plain patch path is a pointer to its
    segments. *)
Lemma patchToOperation_pointer (patch : Patch) :
  plainPath (patch_path patch) = true ->
  pointerOf (member (patchToOperation patch) "path")
  = Some (map segmentToString (patch_path patch)).
Proof.
  unfold plainPath. intros H. simpl.
  destruct (patch_path patch) as [|seg rest] eqn:E; [discriminate|].
  apply fromJSON_join; [discriminate|].
  now rewrite forallb_plain_segments.
Qed.

(** The operation recorded for a patch whose path is plain acts at exactly
    the segments of the patch. *)
Lemma patchToOperation_performs (object : value) (patch : Patch) :
  plainPath (patch_path patch) = true ->
  apply object (patchToOperation patch)
  = perform object (opName (patch_op patch))
      (member (patchToOperation patch) "path")
      (map segmentToString (patch_path patch))
      (patchToOperation patch).
Proof.
  intros H. unfold apply.
  rewrite (patchToOperation_pointer patch H). reflexivity.
Qed.

(** ** Keys that contain a slash *)

(** C1, at the state whose only document property is named ["a/b"] and holds
    [1], with the recipe that assigns [2] to it.  immer reports the patch
    that replaces [["a/b"]] by [2] and its inverse.  The recorded forward
    operation has the path ["/a/b"], which [applyPatch] reads as the member
    [b] of the member [a]: the operation fails with a [MissingError] and the
    state it is applied to stays as it was, with [1] under ["a/b"], which is
    not the state the recipe produces.  The commit returns all the same and
    pushes the command. *)
Theorem slash_key_breaks_round_trip
    (produceWithPatches :
       value -> (value -> result value) ->
       result (value * list Patch * list Patch)) :
  let state := Scenario.slashed 1 in
  let intended := Scenario.slashed 2 in
  let forward := [patchToOperation (mkPatch PReplace [Key "a/b"] (Num 2))] in
  let backward := [patchToOperation (mkPatch PReplace [Key "a/b"] (Num 1))] in
  let command :=
    Obj [("doOperation", Arr forward); ("undoOperation", Arr backward)] in
  produceWithPatches state
    (fun draft => Scenario.assign draft ("a/b", Num 2))
    = Ok (intended,
          [mkPatch PReplace [Key "a/b"] (Num 2)],
          [mkPatch PReplace [Key "a/b"] (Num 1)]) ->
  Scenario.assign state ("a/b", Num 2) = Ok intended
  /\ recordOperations (string * value) produceWithPatches Scenario.assign
       state ("a/b", Num 2) = Ok command
  /\ member (patchToOperation (mkPatch PReplace [Key "a/b"] (Num 2))) "path"
     = Str "/a/b"
  /\ pointerOf (Str "/a/b") = Some ["a"; "b"]
  /\ applyPatch state forward = (state, [Some (MissingError (Str "/a/b"))])
  /\ fst (applyPatch state forward) <> intended
  /\ equal (fst (applyPatch state forward)) intended = false
  /\ createCommandMutation (string * value) produceWithPatches
       Scenario.assign state ("a/b", Num 2)
     = Returned (Obj [ ("a/b", Num 1);
                       ("undoCommands", Arr [command]);
                       ("redoCommands", Arr []) ]).
Proof.
  intros state intended forward backward command H.
  assert (Hrec : recordOperations (string * value) produceWithPatches
                   Scenario.assign state ("a/b", Num 2) = Ok command).
  { unfold recordOperations. now rewrite H. }
  repeat split; try (vm_compute; reflexivity).
  - exact Hrec.
  - vm_compute. discriminate.
  - unfold createCommandMutation. rewrite Hrec. vm_compute. reflexivity.
Qed.

Lemma slash_key_breaks_round_trip_witness :
  applyPatch (Scenario.slashed 1)
    [patchToOperation (mkPatch PReplace [Key "a/b"] (Num 2))]
  = (Scenario.slashed 1, [Some (MissingError (Str "/a/b"))]).
Proof.
  apply (slash_key_breaks_round_trip StructuralDiffer.produceWithPatches).
  vm_compute. reflexivity.
Defined.

(** ** Walking through the history *)

Lemma historyFree_parts (command : value) :
  historyFree command = true ->
  notNullish command = true
  /\ exists doPatch undoPatch,
       member command "doOperation" = Arr doPatch
       /\ member command "undoOperation" = Arr undoPatch
       /\ forallb avoidsHistory doPatch = true
       /\ forallb avoidsHistory undoPatch = true.
Proof.
  unfold historyFree. intros H. split.
  - destruct command; simpl in *; try discriminate; reflexivity.
  - destruct (member command "doOperation") as [| | | | |doPatch|];
      try discriminate.
    destruct (member command "undoOperation") as [| | | | |undoPatch|];
      try discriminate.
    apply andb_true_iff in H. destruct H as [Hd Hu].
    exists doPatch, undoPatch. auto.
Qed.

Lemma forallb_snoc {A : Type} (f : A -> bool) (l : list A) (a : A) :
  forallb f (l ++ [a]) = forallb f l && f a.
Proof.
  rewrite forallb_app. simpl. now rewrite andb_true_r.
Qed.

(** One [UNDO] on a state whose stacks hold commands that avoid the
    history. *)
Lemma UNDO_walk (state : value) (us rs : list value) :
  arrayProp "undoCommands" state = Some us ->
  arrayProp "redoCommands" state = Some rs ->
  forallb historyFree us = true ->
  forallb historyFree rs = true ->
  exists final us' rs',
    UNDO state = Returned final
    /\ arrayProp "undoCommands" final = Some us'
    /\ arrayProp "redoCommands" final = Some rs'
    /\ forallb historyFree us' = true
    /\ forallb historyFree rs' = true
    /\ us' ++ List.rev rs' = us ++ List.rev rs
    /\ (us = [] -> final = state)
    /\ (forall rest command,
          us = rest ++ [command] -> us' = rest /\ rs' = rs ++ [command]).
Proof.
  intros Hu Hr Fu Fr.
  induction us as [|command rest _] using rev_ind.
  - exists state, [], rs.
    split; [now apply UNDO_empty|].
    do 5 (split; [assumption || reflexivity|]).
    split; [reflexivity|].
    intros rest0 command0 E. now destruct rest0.
  - rewrite forallb_snoc in Fu. apply andb_true_iff in Fu.
    destruct Fu as [Frest Fc].
    destruct (historyFree_parts command Fc)
      as [Hc [doPatch [undoPatch [Hd [Hup [_ Hfu]]]]]].
    destruct (moved_patched "undoCommands" "redoCommands" rest rs undoPatch
                command state _ isHistory_undo isHistory_redo
                ltac:(discriminate) Hu Hfu) as [Hu1 Hr1].
    eexists. exists rest, (rs ++ [command]).
    split; [exact (UNDO_step _ _ _ _ _ Hu Hr Hc Hup)|].
    split; [exact Hu1|]. split; [exact Hr1|]. split; [exact Frest|].
    split; [rewrite forallb_snoc; now rewrite Fr, Fc|].
    split; [rewrite rev_app_distr; simpl; now rewrite <- app_assoc|].
    split; [intros E; now destruct rest|].
    intros rest0 command0 E. apply app_inj_tail in E.
    destruct E as [-> ->]. split; reflexivity.
Qed.

(** One [REDO] on such a state. *)
Lemma REDO_walk (state : value) (us rs : list value) :
  arrayProp "undoCommands" state = Some us ->
  arrayProp "redoCommands" state = Some rs ->
  forallb historyFree us = true ->
  forallb historyFree rs = true ->
  exists final us' rs',
    REDO state = Returned final
    /\ arrayProp "undoCommands" final = Some us'
    /\ arrayProp "redoCommands" final = Some rs'
    /\ forallb historyFree us' = true
    /\ forallb historyFree rs' = true
    /\ us' ++ List.rev rs' = us ++ List.rev rs
    /\ (rs = [] -> final = state)
    /\ (forall rest command,
          rs = rest ++ [command] -> rs' = rest /\ us' = us ++ [command]).
Proof.
  intros Hu Hr Fu Fr.
  induction rs as [|command rest _] using rev_ind.
  - exists state, us, [].
    split; [now apply REDO_empty|].
    do 5 (split; [assumption || reflexivity|]).
    split; [reflexivity|].
    intros rest0 command0 E. now destruct rest0.
  - rewrite forallb_snoc in Fr. apply andb_true_iff in Fr.
    destruct Fr as [Frest Fc].
    destruct (historyFree_parts command Fc)
      as [Hc [doPatch [undoPatch [Hd [Hup [Hfd _]]]]]].
    destruct (moved_patched "redoCommands" "undoCommands" rest us doPatch
                command state _ isHistory_redo isHistory_undo
                ltac:(discriminate) Hr Hfd) as [Hr1 Hu1].
    eexists. exists (us ++ [command]), rest.
    split; [exact (REDO_step _ _ _ _ _ Hu Hr Hc Hd)|].
    split; [exact Hu1|]. split; [exact Hr1|].
    split; [rewrite forallb_snoc; now rewrite Fu, Fc|].
    split; [exact Frest|].
    split; [rewrite rev_app_distr; simpl; now rewrite <- app_assoc|].
    split; [intros E; now destruct rest|].
    intros rest0 command0 E. apply app_inj_tail in E.
    destruct E as [-> ->]. split; reflexivity.
Qed.

(** X1.  On a state whose two stacks hold commands that do not address the
    history, any sequence of [UNDO] and [REDO] calls returns, and the
    commands in the order they were committed (the undo stack followed by
    the redo stack from its top) are the same afterwards: undo and redo
    never lose, duplicate or reorder a command. *)
Theorem calls_keep_timeline (sequence : list HistoryCall) (state : value)
    (us rs : list value) :
  arrayProp "undoCommands" state = Some us ->
  arrayProp "redoCommands" state = Some rs ->
  forallb historyFree us = true ->
  forallb historyFree rs = true ->
  exists final,
    calls sequence state = Returned final
    /\ timeline final = Some (us ++ List.rev rs)
    /\ timeline final = timeline state.
Proof.
  revert state us rs.
  induction sequence as [|call rest IH]; intros state us rs Hu Hr Fu Fr.
  - exists state. unfold timeline. rewrite Hu, Hr. auto.
  - assert (Hstep : exists next us' rs',
               (match call with CallUndo => UNDO | CallRedo => REDO end) state
               = Returned next
               /\ arrayProp "undoCommands" next = Some us'
               /\ arrayProp "redoCommands" next = Some rs'
               /\ forallb historyFree us' = true
               /\ forallb historyFree rs' = true
               /\ us' ++ List.rev rs' = us ++ List.rev rs).
    { destruct call.
      - destruct (UNDO_walk state us rs Hu Hr Fu Fr)
          as [next [us' [rs' [H1 [H2 [H3 [H4 [H5 [H6 _]]]]]]]]].
        exists next, us', rs'. auto 10.
      - destruct (REDO_walk state us rs Hu Hr Fu Fr)
          as [next [us' [rs' [H1 [H2 [H3 [H4 [H5 [H6 _]]]]]]]]].
        exists next, us', rs'. auto 10. }
    destruct Hstep as [next [us' [rs' [H1 [H2 [H3 [H4 [H5 H6]]]]]]]].
    destruct (IH next us' rs' H2 H3 H4 H5) as [final [Hc [Ht _]]].
    exists final. simpl. rewrite H1. split; [exact Hc|].
    rewrite Ht, H6. unfold timeline. rewrite Hu, Hr. auto.
Qed.

Lemma calls_keep_timeline_witness :
  let A := commandOf [mkPatch PAdd [Key "items"; Index 0] (Str "a")]
                     [mkPatch PRemove [Key "items"; Index 0] Undefined] in
  let B := commandOf [mkPatch PAdd [Key "items"; Index 1] (Str "b")]
                     [mkPatch PRemove [Key "items"; Index 1] Undefined] in
  let state := Scenario.store [Str "a"] [A] [B] in
  exists final,
    calls [CallUndo; CallUndo; CallRedo; CallRedo; CallRedo; CallUndo] state
    = Returned final
    /\ timeline final = Some [A; B]
    /\ timeline final = timeline state.
Proof.
  intros A B state.
  apply (calls_keep_timeline
           [CallUndo; CallUndo; CallRedo; CallRedo; CallRedo; CallUndo]
           state [A] [B]); vm_compute; reflexivity.
Defined.

(** ** The getters *)

Lemma snoc_not_self {A : Type} (l : list A) (a : A) : l <> l ++ [a].
Proof.
  intros E. apply (f_equal (@List.length A)) in E.
  rewrite length_app in E. simpl in E. lia.
Qed.

(** X2.  On a state whose stacks hold commands that do not address the
    history, [CAN_UNDO] is false exactly when [UNDO] returns the state as
    it was, and when [CAN_UNDO] is true, [UNDO] returns a state where
    [CAN_REDO] is true and the undo stack is one command shorter.  The same
    holds for [CAN_REDO] and [REDO]. *)
Theorem getters_predict_mutations (state : value) (us rs : list value) :
  arrayProp "undoCommands" state = Some us ->
  arrayProp "redoCommands" state = Some rs ->
  forallb historyFree us = true ->
  forallb historyFree rs = true ->
  (CAN_UNDO state = Some false <-> UNDO state = Returned state)
  /\ (CAN_REDO state = Some false <-> REDO state = Returned state)
  /\ (CAN_UNDO state = Some true ->
      exists final,
        UNDO state = Returned final
        /\ CAN_REDO final = Some true
        /\ arrayProp "undoCommands" final = Some (removelast us))
  /\ (CAN_REDO state = Some true ->
      exists final,
        REDO state = Returned final
        /\ CAN_UNDO final = Some true
        /\ arrayProp "redoCommands" final = Some (removelast rs)).
Proof.
  intros Hu Hr Fu Fr.
  destruct (UNDO_walk state us rs Hu Hr Fu Fr)
    as [fu [us1 [rs1 [U1 [U2 [U3 [_ [_ [_ [U7 U8]]]]]]]]]].
  destruct (REDO_walk state us rs Hu Hr Fu Fr)
    as [fr [us2 [rs2 [R1 [R2 [R3 [_ [_ [_ [R7 R8]]]]]]]]]].
  unfold CAN_UNDO, CAN_REDO. rewrite Hu, Hr. simpl.
  split; [|split; [|split]].
  - split.
    + intros H. destruct us; [|discriminate]. now rewrite U1, U7.
    + intros H. induction us as [|c rest _] using rev_ind; [reflexivity|].
      destruct (U8 rest c eq_refl) as [-> _].
      rewrite U1 in H. injection H as ->. rewrite Hu in U2.
      injection U2 as E. symmetry in E. now apply snoc_not_self in E.
  - split.
    + intros H. destruct rs; [|discriminate]. now rewrite R1, R7.
    + intros H. induction rs as [|c rest _] using rev_ind; [reflexivity|].
      destruct (R8 rest c eq_refl) as [-> _].
      rewrite R1 in H. injection H as ->. rewrite Hr in R3.
      injection R3 as E. symmetry in E. now apply snoc_not_self in E.
  - intros H. induction us as [|c rest _] using rev_ind; [discriminate|].
    destruct (U8 rest c eq_refl) as [-> ->].
    exists fu. split; [exact U1|]. rewrite U3, U2. simpl.
    rewrite removelast_last, length_app. simpl.
    split; [|reflexivity]. f_equal. apply Nat.ltb_lt. lia.
  - intros H. induction rs as [|c rest _] using rev_ind; [discriminate|].
    destruct (R8 rest c eq_refl) as [-> ->].
    exists fr. split; [exact R1|]. rewrite R3, R2. simpl.
    rewrite removelast_last, length_app. simpl.
    split; [|reflexivity]. f_equal. apply Nat.ltb_lt. lia.
Qed.

Lemma getters_predict_mutations_witness :
  let command := commandOf [Scenario.addC] [Scenario.removeC] in
  let state := Scenario.store [Str "a"; Str "b"; Str "c"] [command] [] in
  CAN_UNDO state = Some true
  /\ (CAN_REDO state = Some false <-> REDO state = Returned state).
Proof.
  intros command state. split; [reflexivity|].
  apply (getters_predict_mutations state [command] []); reflexivity.
Defined.

(** X3.  Whenever a command mutation returns, [CAN_UNDO] is true and
    [CAN_REDO] is false on the state it leaves, and the undo stack ends
    with the command that was recorded. *)
Theorem commit_enables_undo (P : Type)
    (produceWithPatches :
       value -> (value -> result value) ->
       result (value * list Patch * list Patch))
    (recipe : PayloadRecipe P) (state : value) (payload : P)
    (final : value) :
  createCommandMutation P produceWithPatches recipe state payload
    = Returned final ->
  CAN_UNDO final = Some true
  /\ CAN_REDO final = Some false
  /\ exists command before,
       recordOperations P produceWithPatches recipe state payload
       = Ok command
       /\ arrayProp "undoCommands" final = Some (before ++ [command]).
Proof.
  unfold createCommandMutation.
  destruct (recordOperations P produceWithPatches recipe state payload)
    as [command|e]; [|discriminate].
  destruct (member command "doOperation") as [| | | | |patch|];
    try discriminate.
  destruct (arrayProp "undoCommands" (fst (applyPatch state patch)))
    as [undoCommands|] eqn:Hu; [|discriminate].
  destruct (arrayProp_history _ _ _ isHistory_undo Hu) as [props [E _]].
  rewrite E. simpl setField.
  rewrite arrayProp_setProp_ne by discriminate.
  destruct (arrayProp "redoCommands" (Obj props)) as [redoCommands|];
    [|discriminate].
  intros H. injection H as <-.
  assert (Hfu : arrayProp "undoCommands"
                  (Obj (setProp "redoCommands" (Arr [])
                          (setProp "undoCommands"
                             (Arr (undoCommands ++ [command])) props)))
                = Some (undoCommands ++ [command])).
  { rewrite arrayProp_setProp_ne by discriminate.
    apply arrayProp_setProp_eq. }
  unfold CAN_UNDO, CAN_REDO. rewrite Hfu, arrayProp_setProp_eq. simpl.
  split; [|split; [reflexivity|]].
  - f_equal. apply Nat.ltb_lt. rewrite length_app. simpl. lia.
  - exists command, undoCommands. auto.
Qed.

Lemma commit_enables_undo_witness :
  exists final,
    createCommandMutation value StructuralDiffer.produceWithPatches
      Scenario.append
      (Scenario.store [Str "a"; Str "b"] [] [Scenario.stale]) (Str "c")
    = Returned final
    /\ CAN_UNDO final = Some true
    /\ CAN_REDO final = Some false.
Proof.
  eexists. split; [vm_compute; reflexivity|].
  destruct (commit_enables_undo value StructuralDiffer.produceWithPatches
              Scenario.append
              (Scenario.store [Str "a"; Str "b"] [] [Scenario.stale])
              (Str "c") _ ltac:(vm_compute; reflexivity)) as [H1 [H2 _]].
  split; assumption.
Defined.

Lemma CLEAR_COMMANDS_empty (state : value) :
  arrayProp "undoCommands" state = Some [] ->
  arrayProp "redoCommands" state = Some [] ->
  CLEAR_COMMANDS state = Returned state.
Proof.
  intros Hu Hr. unfold CLEAR_COMMANDS. rewrite Hr.
  destruct (arrayProp_history _ _ _ isHistory_undo Hu) as [q [-> [Gu Hhu]]].
  destruct (arrayProp_history _ _ _ isHistory_redo Hr) as [q' [E [Gr Hhr]]].
  injection E as <-. simpl setField.
  rewrite (setProp_same "redoCommands" (Arr []) q Hhr Gr), Hu.
  simpl setField.
  now rewrite (setProp_same "undoCommands" (Arr []) q Hhu Gu).
Qed.

(** X4.  Whenever [CLEAR_COMMANDS] returns, [CAN_UNDO] and [CAN_REDO] are
    false on the state it leaves, [UNDO] and [REDO] return that state as it
    is, and a second [CLEAR_COMMANDS] changes nothing. *)
Theorem clear_disables_history (state final : value) :
  CLEAR_COMMANDS state = Returned final ->
  CAN_UNDO final = Some false
  /\ CAN_REDO final = Some false
  /\ UNDO final = Returned final
  /\ REDO final = Returned final
  /\ CLEAR_COMMANDS final = Returned final.
Proof.
  intros H.
  assert (Hs : arrayProp "undoCommands" final = Some []
               /\ arrayProp "redoCommands" final = Some []).
  { unfold CLEAR_COMMANDS in H.
    destruct (arrayProp "redoCommands" state) as [rs|] eqn:Hr;
      [|discriminate].
    destruct (arrayProp_history _ _ _ isHistory_redo Hr) as [props [-> _]].
    simpl setField in H.
    destruct (arrayProp "undoCommands"
                (Obj (setProp "redoCommands" (Arr []) props)))
      as [us|]; [|discriminate].
    injection H as <-. split.
    - apply arrayProp_setProp_eq.
    - rewrite arrayProp_setProp_ne by discriminate.
      apply arrayProp_setProp_eq. }
  destruct Hs as [Hu Hr]. unfold CAN_UNDO, CAN_REDO. rewrite Hu, Hr.
  split; [reflexivity|]. split; [reflexivity|].
  split; [now apply UNDO_empty|]. split; [now apply REDO_empty|].
  now apply CLEAR_COMMANDS_empty.
Qed.

Lemma clear_disables_history_witness :
  let final := Scenario.store [Str "a"] [] [] in
  UNDO final = Returned final /\ REDO final = Returned final.
Proof.
  intros final.
  destruct (clear_disables_history
              (Scenario.store [Str "a"] [Scenario.stale] [Scenario.checked])
              final ltac:(vm_compute; reflexivity))
    as [_ [_ [H1 [H2 _]]]].
  split; assumption.
Defined.


(** X5.  A commit whose recorded command does not address the history, on a
    state whose stacks are arrays: the commands that had been undone are
    dropped and the new command becomes the last of the timeline.  The
    [UNDO] right after it returns and leaves the undo stack as it was before
    the commit, with the new command alone on the redo stack; the [REDO]
    after that returns and restores the stacks the commit left. *)
Theorem commit_then_undo_redo (P : Type)
    (produceWithPatches :
       value -> (value -> result value) ->
       result (value * list Patch * list Patch))
    (recipe : PayloadRecipe P) (state : value) (payload : P) (next : value)
    (doPatches undoPatches : list Patch) (us rs : list value) :
  produceWithPatches state (fun draft => recipe draft payload)
    = Ok (next, doPatches, undoPatches) ->
  historyFree (commandOf doPatches undoPatches) = true ->
  arrayProp "undoCommands" state = Some us ->
  arrayProp "redoCommands" state = Some rs ->
  let command := commandOf doPatches undoPatches in
  exists committed undone redone,
    createCommandMutation P produceWithPatches recipe state payload
    = Returned committed
    /\ timeline committed = Some (us ++ [command])
    /\ UNDO committed = Returned undone
    /\ arrayProp "undoCommands" undone = Some us
    /\ arrayProp "redoCommands" undone = Some [command]
    /\ REDO undone = Returned redone
    /\ arrayProp "undoCommands" redone = Some (us ++ [command])
    /\ arrayProp "redoCommands" redone = Some [].
Proof.
  intros Hi Hf Hu Hr command.
  destruct (historyFree_parts _ Hf)
    as [Hc [doPatch [undoPatch [Hd [Hup [Hfd Hfu]]]]]].
  simpl in Hd, Hup. injection Hd as <-. injection Hup as <-.
  destruct (createCommandMutation_stacks P produceWithPatches _ _ _ _ _ _
              _ _ Hi Hfd Hu Hr) as [committed [Hcm [Hu1 Hr1]]].
  destruct (moved_patched "undoCommands" "redoCommands" us [] _ command
              committed _ isHistory_undo isHistory_redo
              ltac:(discriminate) Hu1 Hfu) as [Hu2 Hr2].
  destruct (moved_patched "redoCommands" "undoCommands" [] us _ command
              _ _ isHistory_redo isHistory_undo
              ltac:(discriminate) Hr2 Hfd) as [Hr3 Hu3].
  do 3 eexists.
  split; [exact Hcm|].
  split; [unfold timeline; rewrite Hu1, Hr1; simpl; now rewrite app_nil_r|].
  split; [exact (UNDO_step _ _ _ _ _ Hu1 Hr1 Hc eq_refl)|].
  split; [exact Hu2|]. split; [exact Hr2|].
  split; [exact (REDO_step _ command us [] _ Hu2 Hr2 Hc eq_refl)|].
  split; [exact Hu3|exact Hr3].
Qed.

Lemma commit_then_undo_redo_witness :
  let command := commandOf [Scenario.addC] [Scenario.removeC] in
  exists committed undone redone,
    createCommandMutation value StructuralDiffer.produceWithPatches
      Scenario.append
      (Scenario.store [Str "a"; Str "b"] [Scenario.stale] [Scenario.checked])
      (Str "c")
    = Returned committed
    /\ timeline committed = Some ([Scenario.stale] ++ [command])
    /\ UNDO committed = Returned undone
    /\ arrayProp "undoCommands" undone = Some [Scenario.stale]
    /\ arrayProp "redoCommands" undone = Some [command]
    /\ REDO undone = Returned redone
    /\ arrayProp "undoCommands" redone = Some ([Scenario.stale] ++ [command])
    /\ arrayProp "redoCommands" redone = Some [].
Proof.
  intros command.
  apply (commit_then_undo_redo value StructuralDiffer.produceWithPatches
           Scenario.append
           (Scenario.store [Str "a"; Str "b"] [Scenario.stale]
              [Scenario.checked])
           (Str "c")
           (Scenario.store [Str "a"; Str "b"; Str "c"] [Scenario.stale]
              [Scenario.checked])
           [Scenario.addC] [Scenario.removeC]
           [Scenario.stale] [Scenario.checked]);
    vm_compute; reflexivity.
Defined.

(** ** Actions and trees *)

Lemma hasProp_setProp_ne (k k' : string) (v : value) props :
  k' <> k -> hasProp k' (setProp k v props) = hasProp k' props.
Proof.
  intros Hne.
  induction props as [|[k0 v0] rest IH]; simpl.
  - apply String.eqb_neq in Hne. now rewrite Hne.
  - destruct (String.eqb k k0) eqn:E; simpl.
    + apply String.eqb_eq in E. subst k0.
      apply String.eqb_neq in Hne. now rewrite Hne.
    + now rewrite IH.
Qed.

(** X6.  The action made by [createPayloadAction] commits one object.  Its
    [type] is the mutation type, also when the payload has a [type] of its
    own, which is lost; every other property of the payload is passed on
    with its value and no property is added; for an [undefined] payload the
    object is [{ type }] alone.  The mutation given to
    [createPayloadAction] plays no part. *)
Theorem createPayloadAction_commits {M T : Type} (mutationType : string)
    (mutation : M) (commit : value -> T)
    (payload : option (list (string * value))) :
  exists props,
    createPayloadAction mutationType mutation commit payload
    = commit (Obj props)
    /\ getProp "type" props = Str mutationType
    /\ (forall k, k <> "type" ->
                  getProp k props = getProp k (spread payload)
                  /\ hasProp k props = hasProp k (spread payload))
    /\ (payload = None -> props = [("type", Str mutationType)])
    /\ (forall (M' : Type) (other : M'),
          createPayloadAction mutationType other commit payload
          = createPayloadAction mutationType mutation commit payload).
Proof.
  exists (setProp "type" (Str mutationType) (spread payload)).
  split; [reflexivity|]. split; [apply getProp_setProp_eq|].
  split; [|split].
  - intros k Hk. split.
    + now apply getProp_setProp_ne.
    + now apply hasProp_setProp_ne.
  - now intros ->.
  - reflexivity.
Qed.

Lemma getEntry_map {A B : Type} (f : string -> A -> B) (k : string)
    (tree : list (string * A)) :
  getEntry k (map (fun entry => (fst entry, f (fst entry) (snd entry))) tree)
  = option_map (f k) (getEntry k tree).
Proof.
  induction tree as [|[k' a] rest IH]; simpl; [reflexivity|].
  destruct (String.eqb k k') eqn:E; [|exact IH].
  apply String.eqb_eq in E. now subst k'.
Qed.

(** X7.  The trees keep the names.  The mutation tree made from a recipe
    tree and the action tree made from that mutation tree have the names of
    the recipe tree, in its order.  Under a name the mutation tree holds the
    command mutation of the recipe of that name, and the action tree holds
    an action that commits with that name as [type]; a name the recipe tree
    does not have is in neither. *)
Theorem trees_keep_names (P T : Type)
    (produceWithPatches :
       value -> (value -> result value) ->
       result (value * list Patch * list Patch))
    (payloadRecipeTree : list (string * PayloadRecipe P)) (k : string) :
  let mutations :=
    createCommandMutationTree P produceWithPatches payloadRecipeTree in
  let actions := @createPayloadActionTree _ T mutations in
  map fst mutations = map fst payloadRecipeTree
  /\ map fst actions = map fst payloadRecipeTree
  /\ getEntry k mutations
     = option_map (createCommandMutation P produceWithPatches)
         (getEntry k payloadRecipeTree)
  /\ (getEntry k payloadRecipeTree = None -> getEntry k actions = None)
  /\ (forall recipe,
        getEntry k payloadRecipeTree = Some recipe ->
        exists action,
          getEntry k actions = Some action
          /\ forall commit payload,
               action commit payload
               = commit (Obj (setProp "type" (Str k) (spread payload)))).
Proof.
  intros mutations actions.
  assert (Hm : getEntry k mutations
               = option_map (createCommandMutation P produceWithPatches)
                   (getEntry k payloadRecipeTree)).
  { unfold mutations, createCommandMutationTree.
    apply (getEntry_map (fun _ r => createCommandMutation P produceWithPatches r)). }
  assert (Ha : getEntry k actions
               = option_map (createPayloadAction k) (getEntry k mutations)).
  { unfold actions, createPayloadActionTree.
    apply (getEntry_map (fun key m => @createPayloadAction _ T key m)). }
  split; [|split; [|split; [exact Hm|split]]].
  - unfold mutations, createCommandMutationTree. rewrite map_map.
    reflexivity.
  - unfold actions, createPayloadActionTree, mutations,
      createCommandMutationTree. rewrite !map_map. reflexivity.
  - intros H. rewrite Ha, Hm, H. reflexivity.
  - intros recipe H. rewrite Ha, Hm, H. simpl.
    eexists. split; [reflexivity|]. reflexivity.
Qed.

Lemma trees_keep_names_witness :
  exists action,
    getEntry "APPEND"
      (@createPayloadActionTree _ value
         (createCommandMutationTree value StructuralDiffer.produceWithPatches
            [("APPEND", Scenario.append); ("NOTHING", Scenario.nothing)]))
    = Some action
    /\ action (fun object => object) (Some [("type", Num 7); ("x", Null)])
       = Obj [("type", Str "APPEND"); ("x", Null)].
Proof.
  destruct (trees_keep_names value value StructuralDiffer.produceWithPatches
              [("APPEND", Scenario.append); ("NOTHING", Scenario.nothing)]
              "APPEND") as [_ [_ [_ [_ H]]]].
  destruct (H Scenario.append eq_refl) as [action [Hget Hact]].
  exists action. split; [exact Hget|]. rewrite Hact. reflexivity.
Defined.

(** ** Default styles and the selected character *)

Lemma find_existsb {A : Type} (f : A -> bool) (l : list A) :
  existsb f l = true -> exists x, find f l = Some x.
Proof.
  induction l as [|a rest IH]; simpl; [discriminate|].
  destruct (f a); [now exists a|exact IH].
Qed.

Import CharacterButton.

(** The style found for a selected character. *)
Lemma selectedCharacter_style (characterInfos : list CharacterInfo)
    (voice : Voice) (character : CharacterInfo) :
  selectedCharacter characterInfos (Some voice) = Some character ->
  In character characterInfos
  /\ speakerUuid (metas character) = speakerId voice
  /\ exists style,
       selectedStyleInfo characterInfos (Some voice) = Some style
       /\ In style (styles (metas character))
       /\ style_engineId style = engineId voice
       /\ style_styleId style = styleId voice.
Proof.
  intros H. pose proof H as H'. unfold selectedCharacter in H'.
  destruct (find_some _ _ H') as [Hin Hp].
  apply andb_true_iff in Hp. destruct Hp as [Hu Hex].
  apply String.eqb_eq in Hu.
  destruct (find_existsb _ _ Hex) as [style Hs].
  destruct (find_some _ _ Hs) as [Hsin Hsp].
  unfold styleOf in Hsp. apply andb_true_iff in Hsp.
  destruct Hsp as [He Hi].
  apply String.eqb_eq in He. apply Z.eqb_eq in Hi.
  split; [exact Hin|]. split; [exact Hu|].
  exists style. unfold selectedStyleInfo. rewrite H. auto.
Qed.

(** X8.  A style returned by [getDefaultStyle] is one of the styles of the
    first character whose [speakerUuid] is the given one.  The function
    throws exactly when there is no such character or that character has no
    style. *)
Theorem getDefaultStyle_belongs (characterInfos : list CharacterInfo)
    (defaultStyleIds : list DefaultStyleId) (u : string) :
  let first :=
    find (fun info => String.eqb (speakerUuid (metas info)) u)
      characterInfos in
  (forall style,
     getDefaultStyle characterInfos defaultStyleIds u = Ok style ->
     exists info,
       first = Some info
       /\ speakerUuid (metas info) = u
       /\ In info characterInfos
       /\ In style (styles (metas info)))
  /\ ((exists e, getDefaultStyle characterInfos defaultStyleIds u = Throw e)
      <-> (first = None
           \/ exists info, first = Some info /\ styles (metas info) = [])).
Proof.
  intros first. unfold getDefaultStyle. fold first.
  destruct first as [info|] eqn:F.
  - destruct (find_some _ _ F) as [Hin Hu]. apply String.eqb_eq in Hu.
    set (g := fun style : StyleInfo => _).
    destruct (find g (styles (metas info))) as [style|] eqn:G.
    + split.
      * intros style' H. injection H as <-. exists info.
        repeat split; auto. now destruct (find_some _ _ G).
      * split; [intros [e H]; discriminate|].
        intros [H|[info' [H E]]]; [discriminate|].
        injection H as <-. rewrite E in G. discriminate.
    + destruct (styles (metas info)) as [|s0 rest] eqn:S; simpl.
      * split; [intros style H; discriminate|].
        split; [intros _; right; now exists info|].
        intros _. eexists. reflexivity.
      * split.
        -- intros style H. injection H as <-. exists info.
           rewrite S. repeat split; auto. now left.
        -- split; [intros [e H]; discriminate|].
           intros [H|[info' [H E]]]; [discriminate|].
           injection H as <-. rewrite S in E. discriminate.
  - split; [intros style H; discriminate|].
    split; [intros _; now left|].
    intros _. eexists. reflexivity.
Qed.

(** X9.  When a default style id is registered for the speaker and the
    first character of that speaker has a style with that id,
    [getDefaultStyle] returns the first such style.  When no default is
    registered, or no style of the character has the registered id, it
    returns the first style of the character. *)
Theorem getDefaultStyle_prefers_default (characterInfos : list CharacterInfo)
    (defaultStyleIds : list DefaultStyleId) (u : string)
    (info : CharacterInfo) :
  find (fun info => String.eqb (speakerUuid (metas info)) u) characterInfos
    = Some info ->
  let registered :=
    find (fun x => String.eqb (default_speakerUuid x) u) defaultStyleIds in
  (forall d,
     registered = Some d ->
     existsb (fun style => Z.eqb (style_styleId style) (defaultStyleId d))
       (styles (metas info)) = true ->
     exists style,
       getDefaultStyle characterInfos defaultStyleIds u = Ok style
       /\ style_styleId style = defaultStyleId d
       /\ find (fun style => Z.eqb (style_styleId style) (defaultStyleId d))
            (styles (metas info)) = Some style)
  /\ ((registered = None
       \/ exists d,
            registered = Some d
            /\ existsb (fun style =>
                          Z.eqb (style_styleId style) (defaultStyleId d))
                 (styles (metas info)) = false) ->
      forall style rest,
        styles (metas info) = style :: rest ->
        getDefaultStyle characterInfos defaultStyleIds u = Ok style).
Proof.
  intros F registered. unfold getDefaultStyle. fold registered. rewrite F.
  split.
  - intros d -> Hex. simpl.
    destruct (find_existsb _ _ Hex) as [style Hs].
    exists style. rewrite Hs. repeat split.
    destruct (find_some _ _ Hs) as [_ E]. now apply Z.eqb_eq in E.
  - intros [->|[d [-> Hex]]] style rest S; simpl.
    + assert (E : forall l : list StyleInfo,
                  find (fun _ : StyleInfo => false) l = None).
      { induction l; simpl; auto. }
      now rewrite E, S.
    + destruct (find (fun style0 => Z.eqb (style_styleId style0)
                                     (defaultStyleId d))
                  (styles (metas info))) as [s|] eqn:G.
      * destruct (find_some _ _ G) as [Hin E].
        assert (existsb (fun style0 => Z.eqb (style_styleId style0)
                                         (defaultStyleId d))
                  (styles (metas info)) = true)
          by (apply existsb_exists; now exists s).
        congruence.
      * now rewrite S.
Qed.

Lemma getDefaultStyle_prefers_default_witness :
  let zundamon :=
    mkCharacterInfo
      (mkMetas "speaker-1" "Zundamon"
         [mkStyleInfo "engine-a" 3 (Some "normal");
          mkStyleInfo "engine-a" 1 (Some "sweet")]) in
  getDefaultStyle [zundamon] [mkDefaultStyleId "speaker-1" 1] "speaker-1"
  = Ok (mkStyleInfo "engine-a" 1 (Some "sweet"))
  /\ getDefaultStyle [zundamon] [mkDefaultStyleId "speaker-1" 9] "speaker-1"
     = Ok (mkStyleInfo "engine-a" 3 (Some "normal")).
Proof.
  intros zundamon.
  destruct (getDefaultStyle_prefers_default [zundamon]
              [mkDefaultStyleId "speaker-1" 1] "speaker-1" zundamon eq_refl)
    as [H1 _].
  destruct (getDefaultStyle_prefers_default [zundamon]
              [mkDefaultStyleId "speaker-1" 9] "speaker-1" zundamon eq_refl)
    as [_ H2].
  split.
  - destruct (H1 (mkDefaultStyleId "speaker-1" 1) eq_refl eq_refl)
      as [style [E [_ F]]].
    rewrite E. simpl in F. now injection F as <-.
  - apply (H2 (or_intror (ex_intro _ (mkDefaultStyleId "speaker-1" 9)
                            (conj eq_refl eq_refl)))
              _ [mkStyleInfo "engine-a" 1 (Some "sweet")]).
    reflexivity.
Defined.

(** X10.  Whenever a character is selected, a style is selected too: the
    first style of that character with the engine id and style id of the
    selected voice, and the character has the speaker id of the voice.  The
    text shown is then the speaker name followed by the style name in
    parentheses; the branch that shows the speaker name alone is never
    taken.  Without a selected character no style is selected. *)
Theorem selected_character_has_style (characterInfos : list CharacterInfo)
    (selectedVoice : option Voice) :
  (forall character,
     selectedCharacter characterInfos selectedVoice = Some character ->
     exists voice style,
       selectedVoice = Some voice
       /\ In character characterInfos
       /\ speakerUuid (metas character) = speakerId voice
       /\ selectedStyleInfo characterInfos selectedVoice = Some style
       /\ In style (styles (metas character))
       /\ style_engineId style = engineId voice
       /\ style_styleId style = styleId voice
       /\ selectedVoiceInfoText characterInfos selectedVoice
          = (speakerName (metas character) ++ " ("
               ++ printStyleName (style_styleName style) ++ ")")%string
       /\ isSelectedItem characterInfos selectedVoice character = true)
  /\ (selectedCharacter characterInfos selectedVoice = None ->
      selectedStyleInfo characterInfos selectedVoice = None
      /\ selectedVoiceInfoText characterInfos selectedVoice
         = "キャラクター未選択"
      /\ forall characterInfo,
           isSelectedItem characterInfos selectedVoice characterInfo = false).
Proof.
  split.
  - intros character H.
    destruct selectedVoice as [voice|]; [|discriminate].
    destruct (selectedCharacter_style _ _ _ H)
      as [Hin [Hu [style [Hsel [Hsin [He Hi]]]]]].
    exists voice, style. repeat split; auto.
    + unfold selectedVoiceInfoText. now rewrite H, Hsel.
    + unfold isSelectedItem. rewrite H. apply String.eqb_refl.
  - intros H. unfold selectedStyleInfo, selectedVoiceInfoText, isSelectedItem.
    rewrite H. auto.
Qed.

(** ** Default presets *)

Import Preset.

Lemma getEntry_value (k : string) (tree : list (string * string))
    (v : string) :
  getEntry k tree = Some v -> existsb (String.eqb v) (map snd tree) = true.
Proof.
  induction tree as [|[k' v'] rest IH]; simpl; [discriminate|].
  destruct (String.eqb k k').
  - intros H. injection H as ->. now rewrite String.eqb_refl.
  - intros H. rewrite (IH H). apply orb_true_r.
Qed.

(** X12.  The default preset key of a voice is a default preset key: when
    [getDefaultPresetKeyForVoice] finds a key, [isDefaultPresetKey] holds
    for it.  A key is a default preset key exactly when some entry of
    [defaultPresetKeys] has it as value. *)
Theorem default_preset_key_is_default (VoiceId : Voice -> string)
    (defaultPresetKeys : list (string * string)) :
  (forall voice key,
     getDefaultPresetKeyForVoice VoiceId defaultPresetKeys voice = Some key ->
     isDefaultPresetKey defaultPresetKeys key = true)
  /\ (forall key,
        isDefaultPresetKey defaultPresetKeys key = true
        <-> exists voiceId, In (voiceId, key) defaultPresetKeys).
Proof.
  split.
  - intros voice key H. unfold isDefaultPresetKey.
    now apply (getEntry_value (VoiceId voice)).
  - intros key. unfold isDefaultPresetKey. rewrite existsb_exists. split.
    + intros [v [Hin E]]. apply String.eqb_eq in E. subst v.
      apply in_map_iff in Hin. destruct Hin as [[voiceId key'] [E Hin]].
      simpl in E. subst key'. now exists voiceId.
    + intros [voiceId Hin]. exists key. split; [|apply String.eqb_refl].
      apply in_map_iff. now exists (voiceId, key).
Qed.

(** X13.  Whenever [determineNextPresetKey] says that the preset is to be
    applied, the preset key it gives is the default preset key of the
    current voice, and either presets are enabled or the operation is a
    voice change with the default preset applied on voice change.  With
    both settings off no operation applies a preset. *)
Theorem applied_preset_is_default (VoiceId : Voice -> string)
    (defaultPresetKeys : list (string * string))
    (experimentalSetting : ExperimentalSetting) (inheritAudioInfo : bool)
    (voice : Voice) (presetKeyCandidate : option string)
    (operation : Operation) :
  let next :=
    determineNextPresetKey VoiceId defaultPresetKeys experimentalSetting
      inheritAudioInfo voice presetKeyCandidate operation in
  shouldApplyPreset next = true ->
  nextPresetKey next
  = getDefaultPresetKeyForVoice VoiceId defaultPresetKeys voice
  /\ (enablePreset experimentalSetting = true
      \/ (operation = changeVoice
          /\ shouldApplyDefaultPresetOnVoiceChanged experimentalSetting
             = true))
  /\ (operation = copy -> inheritAudioInfo = false).
Proof.
  unfold determineNextPresetKey, getDefaultPresetKeyForVoice.
  destruct operation; simpl.
  - intros H. split; [reflexivity|]. split; [now left|discriminate].
  - destruct inheritAudioInfo; simpl; [discriminate|].
    intros H. split; [reflexivity|]. split; [now left|reflexivity].
  - destruct (shouldApplyDefaultPresetOnVoiceChanged experimentalSetting);
      simpl; [|discriminate].
    intros _. split; [reflexivity|]. split; [now right|discriminate].
Qed.

Lemma applied_preset_is_default_witness :
  let voiceId := fun voice : Voice =>
    (engineId voice ++ ":" ++ speakerId voice)%string in
  nextPresetKey
    (determineNextPresetKey voiceId
       [("engine-a:speaker-0", "preset-0"); ("engine-a:speaker-1", "preset-1")]
       (mkExperimentalSetting false true) false
       (mkVoice "engine-a" "speaker-1" 3) (Some "custom") changeVoice)
  = Some "preset-1".
Proof.
  intros voiceId.
  apply (applied_preset_is_default voiceId
           [("engine-a:speaker-0", "preset-0");
            ("engine-a:speaker-1", "preset-1")]
           (mkExperimentalSetting false true) false
           (mkVoice "engine-a" "speaker-1" 3) (Some "custom") changeVoice).
  reflexivity.
Defined.

Lemma existsb_never {A : Type} (l : list A) :
  existsb (fun _ : A => false) l = false.
Proof.
  induction l as [|a rest IH]; simpl; auto.
Qed.

(** X14.  Unless an audio item is copied with its parameters inherited, the
    next preset key is never the default preset of another voice: if it is
    a default preset key at all, it is the one of the current voice.  On a
    voice change without the default applied, a candidate that is no default
    preset key is kept; on a copy with inheritance the candidate is kept
    whatever it is. *)
Theorem no_foreign_default_preset (VoiceId : Voice -> string)
    (defaultPresetKeys : list (string * string))
    (experimentalSetting : ExperimentalSetting) (inheritAudioInfo : bool)
    (voice : Voice) (presetKeyCandidate : option string)
    (operation : Operation) :
  let next :=
    determineNextPresetKey VoiceId defaultPresetKeys experimentalSetting
      inheritAudioInfo voice presetKeyCandidate operation in
  (~ (operation = copy /\ inheritAudioInfo = true) ->
   forall key,
     nextPresetKey next = Some key ->
     isDefaultPresetKey defaultPresetKeys key = true ->
     getDefaultPresetKeyForVoice VoiceId defaultPresetKeys voice = Some key)
  /\ (operation = changeVoice ->
      shouldApplyDefaultPresetOnVoiceChanged experimentalSetting = false ->
      (forall key, presetKeyCandidate = Some key ->
                   isDefaultPresetKey defaultPresetKeys key = false) ->
      nextPresetKey next = presetKeyCandidate)
  /\ (operation = copy -> inheritAudioInfo = true ->
      nextPresetKey next = presetKeyCandidate
      /\ shouldApplyPreset next = false).
Proof.
  unfold determineNextPresetKey, getDefaultPresetKeyForVoice.
  assert (Hsome : forall key,
            existsb (fun k => match Some key with
                              | Some candidate => String.eqb k candidate
                              | None => false
                              end) (map snd defaultPresetKeys)
            = isDefaultPresetKey defaultPresetKeys key).
  { intros key. unfold isDefaultPresetKey.
    induction (map snd defaultPresetKeys) as [|k rest IH]; simpl; auto.
    now rewrite IH, (String.eqb_sym k key). }
  split; [|split].
  - intros Hn key. destruct operation; simpl; auto.
    + destruct inheritAudioInfo; simpl; auto.
      exfalso. apply Hn. auto.
    + destruct (shouldApplyDefaultPresetOnVoiceChanged experimentalSetting);
        simpl; auto.
      destruct presetKeyCandidate as [candidate|].
      * rewrite Hsome.
        destruct (isDefaultPresetKey defaultPresetKeys candidate) eqn:D;
          auto.
        intros H. injection H as ->. congruence.
      * rewrite existsb_never. discriminate.
  - intros -> -> Hc. simpl.
    destruct presetKeyCandidate as [candidate|].
    + now rewrite Hsome, (Hc candidate eq_refl).
    + now rewrite existsb_never.
  - intros -> ->. simpl. auto.
Qed.

(** ** Patches outside the history *)

Lemma outsideHistory_avoids (patch : Patch) :
  outsideHistory patch = true ->
  avoidsHistory (patchToOperation patch) = true.
Proof.
  unfold outsideHistory. intros H. apply andb_true_iff in H.
  destruct H as [Hplain Hfirst].
  unfold avoidsHistory, pointsOutsideHistory.
  rewrite (patchToOperation_pointer patch Hplain).
  destruct (patch_path patch) as [|first rest]; [discriminate|].
  simpl. now rewrite Hfirst.
Qed.

(** X15.  For a patch whose path is not empty and has neither ['/'] nor
    ['~'] in any segment, the path string made by [patchToOperation], read
    as a JSON pointer, gives back the segments of the patch, numbers in
    decimal.  If moreover the first segment is neither [undoCommands] nor
    [redoCommands], the operation does not address the history, and a
    command recorded from such patches is one that does not address the
    history. *)
Theorem plain_patches_keep_their_path (doPatches undoPatches : list Patch) :
  forallb outsideHistory doPatches = true ->
  forallb outsideHistory undoPatches = true ->
  (forall patch,
     In patch (doPatches ++ undoPatches) ->
     pointerOf (member (patchToOperation patch) "path")
     = Some (map segmentToString (patch_path patch))
     /\ avoidsHistory (patchToOperation patch) = true)
  /\ historyFree (commandOf doPatches undoPatches) = true.
Proof.
  intros Hd Hu.
  assert (Hall : forall patches,
            forallb outsideHistory patches = true ->
            forallb avoidsHistory (map patchToOperation patches) = true).
  { induction patches as [|patch rest IH]; simpl; [reflexivity|].
    intros H. apply andb_true_iff in H. destruct H as [H1 H2].
    now rewrite (outsideHistory_avoids patch H1), (IH H2). }
  split.
  - intros patch Hin.
    assert (Ho : outsideHistory patch = true).
    { apply in_app_or in Hin.
      destruct Hin as [Hin|Hin];
        [exact (proj1 (forallb_forall _ _) Hd patch Hin)
        |exact (proj1 (forallb_forall _ _) Hu patch Hin)]. }
    split; [|now apply outsideHistory_avoids].
    apply patchToOperation_pointer.
    unfold outsideHistory in Ho. apply andb_true_iff in Ho. tauto.
  - unfold historyFree. simpl. now rewrite (Hall _ Hd), (Hall _ Hu).
Qed.

Lemma plain_patches_keep_their_path_witness :
  historyFree (commandOf [Scenario.addC] [Scenario.removeC]) = true
  /\ pointerOf (member (patchToOperation Scenario.addC) "path")
     = Some ["items"; "2"].
Proof.
  destruct (plain_patches_keep_their_path [Scenario.addC] [Scenario.removeC]
              eq_refl eq_refl) as [H1 H2].
  split; [exact H2|].
  destruct (H1 Scenario.addC (or_introl eq_refl)) as [H _]. exact H.
Defined.

(** ** The end of the project actions *)

Lemma CLEAR_COMMANDS_result props (us rs : list value) :
  arrayProp "undoCommands" (Obj props) = Some us ->
  arrayProp "redoCommands" (Obj props) = Some rs ->
  CLEAR_COMMANDS (Obj props)
  = Returned (Obj (setProp "undoCommands" (Arr [])
                     (setProp "redoCommands" (Arr []) props))).
Proof.
  intros Hu Hr. unfold CLEAR_COMMANDS. rewrite Hr. simpl setField.
  rewrite arrayProp_setProp_ne by discriminate. now rewrite Hu.
Qed.

(** X16.  [SET_PROJECT_FILEPATH] and [SET_SAVED_LAST_COMMAND_UNIX_MILLISEC]
    leave the two command stacks as they are.  The three commits that
    [CREATE_NEW_PROJECT] and [LOAD_PROJECT_FILE] end with, in their order,
    return a state whose [projectFilePath] is the [filePath] of the payload,
    whose [savedLastCommandUnixMillisec] is [null] and whose stacks are
    empty, so that [CAN_UNDO] and [CAN_REDO] are false; every other property
    of the state keeps its value. *)
Theorem project_reset (state payload : value) (us rs : list value) :
  arrayProp "undoCommands" state = Some us ->
  arrayProp "redoCommands" state = Some rs ->
  notNullish payload = true ->
  exists s1 s2 s3,
    SET_PROJECT_FILEPATH state payload = Returned s1
    /\ SET_SAVED_LAST_COMMAND_UNIX_MILLISEC s1 Null = Returned s2
    /\ CLEAR_COMMANDS s2 = Returned s3
    /\ arrayProp "undoCommands" s1 = Some us
    /\ arrayProp "redoCommands" s1 = Some rs
    /\ arrayProp "undoCommands" s2 = Some us
    /\ arrayProp "redoCommands" s2 = Some rs
    /\ member s3 "projectFilePath" = member payload "filePath"
    /\ member s3 "savedLastCommandUnixMillisec" = Null
    /\ CAN_UNDO s3 = Some false
    /\ CAN_REDO s3 = Some false
    /\ forall k,
         k <> "projectFilePath" -> k <> "savedLastCommandUnixMillisec" ->
         k <> "undoCommands" -> k <> "redoCommands" ->
         member s3 k = member state k.
Proof.
  intros Hu Hr Hp.
  destruct (arrayProp_history _ _ _ isHistory_undo Hu) as [props [-> _]].
  unfold SET_PROJECT_FILEPATH, SET_SAVED_LAST_COMMAND_UNIX_MILLISEC.
  rewrite Hp. simpl setField.
  set (p1 := setProp "projectFilePath" (member payload "filePath") props).
  set (p2 := setProp "savedLastCommandUnixMillisec" Null p1).
  assert (Hu1 : arrayProp "undoCommands" (Obj p1) = Some us)
    by (unfold p1; now rewrite arrayProp_setProp_ne by discriminate).
  assert (Hr1 : arrayProp "redoCommands" (Obj p1) = Some rs)
    by (unfold p1; now rewrite arrayProp_setProp_ne by discriminate).
  assert (Hu2 : arrayProp "undoCommands" (Obj p2) = Some us)
    by (unfold p2; now rewrite arrayProp_setProp_ne by discriminate).
  assert (Hr2 : arrayProp "redoCommands" (Obj p2) = Some rs)
    by (unfold p2; now rewrite arrayProp_setProp_ne by discriminate).
  exists (Obj p1), (Obj p2),
    (Obj (setProp "undoCommands" (Arr [])
            (setProp "redoCommands" (Arr []) p2))).
  split; [reflexivity|]. split; [reflexivity|].
  split; [exact (CLEAR_COMMANDS_result p2 us rs Hu2 Hr2)|].
  do 4 (split; [assumption|]).
  split; [|split; [|split; [|split]]].
  - simpl. unfold p2, p1. rewrite !getProp_setProp_ne by discriminate.
    apply getProp_setProp_eq.
  - simpl. unfold p2. rewrite !getProp_setProp_ne by discriminate.
    apply getProp_setProp_eq.
  - unfold CAN_UNDO. now rewrite arrayProp_setProp_eq.
  - unfold CAN_REDO. rewrite arrayProp_setProp_ne by discriminate.
    now rewrite arrayProp_setProp_eq.
  - intros k K1 K2 K3 K4. simpl. unfold p2, p1.
    now rewrite !getProp_setProp_ne.
Qed.

Lemma project_reset_witness :
  let state :=
    Obj [ ("projectFilePath", Str "old.vvproj");
          ("audioKeys", Arr [Str "k"]);
          ("undoCommands", Arr [Scenario.stale]);
          ("redoCommands", Arr [Scenario.checked]) ] in
  exists s1 s2,
    SET_PROJECT_FILEPATH state (Obj [("filePath", Undefined)]) = Returned s1
    /\ SET_SAVED_LAST_COMMAND_UNIX_MILLISEC s1 Null = Returned s2
    /\ CLEAR_COMMANDS s2
       = Returned (Obj [ ("projectFilePath", Undefined);
                         ("audioKeys", Arr [Str "k"]);
                         ("undoCommands", Arr []);
                         ("redoCommands", Arr []);
                         ("savedLastCommandUnixMillisec", Null) ]).
Proof.
  intros state.
  destruct (project_reset state (Obj [("filePath", Undefined)])
              [Scenario.stale] [Scenario.checked] eq_refl eq_refl eq_refl)
    as [s1 [s2 [s3 [H1 [H2 [H3 _]]]]]].
  exists s1, s2. split; [exact H1|]. split; [exact H2|].
  vm_compute in H1. injection H1 as <-.
  vm_compute in H2. injection H2 as <-.
  vm_compute. reflexivity.
Defined.

(** ** Saved preset configurations *)

Import PresetStore.

Section PresetStoreFacts.

Variable Preset : Type.

Lemma getEntry_setEntry_eq (k : string) (v : Preset) items :
  getEntry k (setEntry Preset k v items) = Some v.
Proof.
  induction items as [|[k' v'] rest IH]; simpl.
  - now rewrite String.eqb_refl.
  - destruct (String.eqb k k') eqn:E; simpl; rewrite E; auto.
Qed.

Lemma getEntry_setEntry_ne (k k' : string) (v : Preset) items :
  k' <> k -> getEntry k' (setEntry Preset k v items) = getEntry k' items.
Proof.
  intros Hne.
  induction items as [|[k0 v0] rest IH]; simpl.
  - apply String.eqb_neq in Hne. now rewrite Hne.
  - destruct (String.eqb k k0) eqn:E; simpl.
    + apply String.eqb_eq in E. subst k0.
      apply String.eqb_neq in Hne. now rewrite Hne.
    + now rewrite IH.
Qed.

Lemma getEntry_withoutEntry_eq (k : string) items :
  getEntry k (withoutEntry Preset k items) = None.
Proof.
  induction items as [|[k' v'] rest IH]; simpl; auto.
  destruct (String.eqb k k') eqn:E; simpl; [exact IH|]. now rewrite E.
Qed.

Lemma getEntry_withoutEntry_ne (k k' : string) items :
  k' <> k -> getEntry k' (withoutEntry Preset k items) = getEntry k' items.
Proof.
  intros Hne.
  induction items as [|[k0 v0] rest IH]; simpl; auto.
  destruct (String.eqb k k0) eqn:E; simpl.
  - apply String.eqb_eq in E. subst k0.
    apply String.eqb_neq in Hne. now rewrite Hne.
  - now rewrite IH.
Qed.

Lemma filter_absent (k : string) (keys : list string) :
  ~ In k keys -> filter (fun key => negb (String.eqb key k)) keys = keys.
Proof.
  induction keys as [|a rest IH]; simpl; auto.
  intros H. destruct (String.eqb a k) eqn:E.
  - apply String.eqb_eq in E. subst a. exfalso. apply H. now left.
  - simpl. rewrite IH; auto.
Qed.

Lemma existsb_In (k : string) (keys : list string) :
  existsb (String.eqb k) keys = true <-> In k keys.
Proof.
  rewrite existsb_exists. split.
  - intros [x [Hin E]]. apply String.eqb_eq in E. now subst x.
  - intros H. exists k. split; [exact H|apply String.eqb_refl].
Qed.

(** X17.  The configuration that [updatePreset] saves holds the given
    preset under the given key and every other preset as before; the key is
    listed, the keys that were listed stay in their order, and a key that
    was listed is not listed a second time.  If every listed key had a
    preset and no key was listed twice, the same holds afterwards. *)
Theorem updatePreset_keeps_consistency (state : PresetConfig Preset)
    (presetKey : string) (presetData : Preset) :
  let saved := updatePreset Preset state presetKey presetData in
  getEntry presetKey (presetItems Preset saved) = Some presetData
  /\ (forall key, key <> presetKey ->
        getEntry key (presetItems Preset saved)
        = getEntry key (presetItems Preset state))
  /\ In presetKey (presetKeys Preset saved)
  /\ (In presetKey (presetKeys Preset state) ->
      presetKeys Preset saved = presetKeys Preset state)
  /\ (~ In presetKey (presetKeys Preset state) ->
      presetKeys Preset saved = presetKey :: presetKeys Preset state)
  /\ (consistent Preset state -> consistent Preset saved).
Proof.
  intros saved. unfold saved, updatePreset. simpl.
  split; [apply getEntry_setEntry_eq|].
  split; [intros key Hk; now apply getEntry_setEntry_ne|].
  destruct (existsb (String.eqb presetKey) (presetKeys Preset state)) eqn:E.
  - apply existsb_In in E.
    split; [exact E|]. split; [reflexivity|]. split; [contradiction|].
    intros [Hnd Hall]. split; [exact Hnd|]. simpl.
    intros key Hin. destruct (String.eqb key presetKey) eqn:K.
    + apply String.eqb_eq in K. subst key.
      rewrite getEntry_setEntry_eq. discriminate.
    + apply String.eqb_neq in K. rewrite getEntry_setEntry_ne by exact K.
      now apply Hall.
  - assert (Hn : ~ In presetKey (presetKeys Preset state)).
    { intros H. apply existsb_In in H. congruence. }
    split; [now left|]. split; [contradiction|]. split; [reflexivity|].
    intros [Hnd Hall]. split; [now constructor|]. simpl.
    intros key [<-|Hin].
    + rewrite getEntry_setEntry_eq. discriminate.
    + destruct (String.eqb key presetKey) eqn:K.
      * apply String.eqb_eq in K. subst key. contradiction.
      * apply String.eqb_neq in K. rewrite getEntry_setEntry_ne by exact K.
        now apply Hall.
Qed.

(** X18.  The configuration that [deletePreset] saves has no preset under
    the given key and does not list it; every other preset and the order of
    the other keys are kept.  If every listed key had a preset and no key
    was listed twice, the same holds afterwards. *)
Theorem deletePreset_keeps_consistency (state : PresetConfig Preset)
    (presetKey : string) :
  let saved := deletePreset Preset state presetKey in
  getEntry presetKey (presetItems Preset saved) = None
  /\ ~ In presetKey (presetKeys Preset saved)
  /\ (forall key, key <> presetKey ->
        getEntry key (presetItems Preset saved)
        = getEntry key (presetItems Preset state)
        /\ (In key (presetKeys Preset saved)
            <-> In key (presetKeys Preset state)))
  /\ (consistent Preset state -> consistent Preset saved).
Proof.
  intros saved. unfold saved, deletePreset. simpl.
  split; [apply getEntry_withoutEntry_eq|].
  assert (Hf : forall key,
            In key (filter (fun key => negb (String.eqb key presetKey))
                      (presetKeys Preset state))
            <-> In key (presetKeys Preset state) /\ key <> presetKey).
  { intros key. rewrite filter_In. rewrite negb_true_iff, String.eqb_neq.
    reflexivity. }
  split; [intros H; apply Hf in H; now destruct H|].
  split.
  - intros key Hk. split; [now apply getEntry_withoutEntry_ne|].
    rewrite Hf. tauto.
  - intros [Hnd Hall]. split; [now apply NoDup_filter|]. simpl.
    intros key Hin. apply Hf in Hin. destruct Hin as [Hin Hk].
    rewrite getEntry_withoutEntry_ne by exact Hk. now apply Hall.
Qed.

(** X19.  Deleting a preset right after adding it under a key that was
    neither listed nor used gives back the listed keys, and every key has
    the preset it had before: [deletePreset] undoes [addPreset]. *)
Theorem deletePreset_undoes_addPreset (state : PresetConfig Preset)
    (newKey : string) (presetData : Preset) :
  ~ In newKey (presetKeys Preset state) ->
  getEntry newKey (presetItems Preset state) = None ->
  let added := addPreset Preset state newKey presetData in
  let saved := deletePreset Preset added newKey in
  getEntry newKey (presetItems Preset added) = Some presetData
  /\ presetKeys Preset added = newKey :: presetKeys Preset state
  /\ presetKeys Preset saved = presetKeys Preset state
  /\ forall key,
       getEntry key (presetItems Preset saved)
       = getEntry key (presetItems Preset state).
Proof.
  intros Hn Hnone added saved. unfold saved, added, deletePreset, addPreset.
  simpl. split; [apply getEntry_setEntry_eq|]. split; [reflexivity|].
  split.
  - rewrite String.eqb_refl. simpl. now apply filter_absent.
  - intros key. destruct (String.eqb key newKey) eqn:K.
    + apply String.eqb_eq in K. subst key.
      now rewrite getEntry_withoutEntry_eq.
    + apply String.eqb_neq in K.
      rewrite getEntry_withoutEntry_ne by exact K.
      now apply getEntry_setEntry_ne.
Qed.

End PresetStoreFacts.

Lemma deletePreset_undoes_addPreset_witness :
  let state := mkPresetConfig nat [("p1", 10); ("p2", 20)] ["p2"; "p1"] in
  presetKeys nat (deletePreset nat (addPreset nat state "p3" 30) "p3")
  = ["p2"; "p1"].
Proof.
  intros state.
  apply (deletePreset_undoes_addPreset nat state "p3" 30).
  - intros [H|[H|[]]]; discriminate.
  - reflexivity.
Defined.

(** ** The statements at concrete inputs *)

Lemma getDefaultStyle_belongs_witness :
  (exists e,
     CharacterButton.getDefaultStyle
       [mkCharacterInfo (mkMetas "speaker-0" "Metan" [])] [] "speaker-0"
     = Throw e)
  /\ (exists e,
        CharacterButton.getDefaultStyle
          [mkCharacterInfo (mkMetas "speaker-0" "Metan" [])] [] "speaker-9"
        = Throw e).
Proof.
  split.
  - apply (getDefaultStyle_belongs
             [mkCharacterInfo (mkMetas "speaker-0" "Metan" [])] []
             "speaker-0").
    right. eexists. split; reflexivity.
  - apply (getDefaultStyle_belongs
             [mkCharacterInfo (mkMetas "speaker-0" "Metan" [])] []
             "speaker-9").
    left. reflexivity.
Defined.

Lemma selected_character_has_style_witness :
  let zundamon :=
    mkCharacterInfo
      (mkMetas "speaker-1" "Zundamon"
         [mkStyleInfo "engine-a" 3 (Some "normal");
          mkStyleInfo "engine-b" 3 (Some "sweet")]) in
  CharacterButton.selectedVoiceInfoText [zundamon]
    (Some (mkVoice "engine-b" "speaker-1" 3)) = "Zundamon (sweet)"
  /\ CharacterButton.selectedStyleInfo [zundamon]
       (Some (mkVoice "engine-c" "speaker-1" 3)) = None.
Proof.
  intros zundamon. split.
  - destruct (selected_character_has_style [zundamon]
                (Some (mkVoice "engine-b" "speaker-1" 3))) as [H _].
    destruct (H zundamon eq_refl)
      as [voice [style [_ [_ [_ [Hs [_ [_ [_ [Ht _]]]]]]]]]].
    rewrite Ht. vm_compute in Hs. injection Hs as <-. reflexivity.
  - apply (selected_character_has_style [zundamon]
             (Some (mkVoice "engine-c" "speaker-1" 3))).
    reflexivity.
Defined.

Lemma no_foreign_default_preset_witness :
  let voiceId := fun voice : Voice =>
    (engineId voice ++ ":" ++ speakerId voice)%string in
  let defaults :=
    [("engine-a:speaker-0", "preset-0"); ("engine-a:speaker-1", "preset-1")] in
  Preset.getDefaultPresetKeyForVoice voiceId defaults
    (mkVoice "engine-a" "speaker-1" 3) = Some "preset-1"
  /\ Preset.nextPresetKey
       (Preset.determineNextPresetKey voiceId defaults
          (mkExperimentalSetting true false) false
          (mkVoice "engine-a" "speaker-1" 3) (Some "custom")
          Preset.changeVoice)
     = Some "custom".
Proof.
  intros voiceId defaults.
  destruct (no_foreign_default_preset voiceId defaults
              (mkExperimentalSetting true false) false
              (mkVoice "engine-a" "speaker-1" 3) (Some "preset-0")
              Preset.changeVoice) as [H1 _].
  destruct (no_foreign_default_preset voiceId defaults
              (mkExperimentalSetting true false) false
              (mkVoice "engine-a" "speaker-1" 3) (Some "custom")
              Preset.changeVoice) as [_ [H2 _]].
  split.
  - apply H1; [intros [H _]; discriminate|reflexivity|reflexivity].
  - apply H2; [reflexivity|reflexivity|].
    intros key H. injection H as <-. reflexivity.
Defined.

Lemma updatePreset_keeps_consistency_witness :
  let state :=
    PresetStore.mkPresetConfig nat [("p1", 10); ("p2", 20)] ["p2"; "p1"] in
  PresetStore.presetKeys nat (PresetStore.updatePreset nat state "p1" 11)
  = ["p2"; "p1"]
  /\ PresetStore.presetKeys nat (PresetStore.updatePreset nat state "p3" 30)
     = ["p3"; "p2"; "p1"].
Proof.
  intros state. split.
  - apply (updatePreset_keeps_consistency nat state "p1" 11).
    right. left. reflexivity.
  - apply (updatePreset_keeps_consistency nat state "p3" 30).
    intros [H|[H|[]]]; discriminate.
Defined.

Lemma deletePreset_keeps_consistency_witness :
  let state :=
    PresetStore.mkPresetConfig nat [("p1", 10); ("p2", 20)] ["p2"; "p1"] in
  getEntry "p2"
    (PresetStore.presetItems nat (PresetStore.deletePreset nat state "p2"))
  = None
  /\ getEntry "p1"
       (PresetStore.presetItems nat (PresetStore.deletePreset nat state "p2"))
     = Some 10.
Proof.
  intros state.
  destruct (deletePreset_keeps_consistency nat state "p2")
    as [H1 [_ [H2 _]]].
  split; [exact H1|].
  destruct (H2 "p1" ltac:(discriminate)) as [H _]. rewrite H. reflexivity.
Defined.

Lemma default_preset_key_is_default_witness :
  Preset.isDefaultPresetKey
    [("engine-a:speaker-0", "preset-0"); ("engine-a:speaker-1", "preset-1")]
    "preset-1" = true.
Proof.
  apply (default_preset_key_is_default
           (fun voice => (engineId voice ++ ":" ++ speakerId voice)%string)
           [("engine-a:speaker-0", "preset-0");
            ("engine-a:speaker-1", "preset-1")]).
  exists "engine-a:speaker-1". right. left. reflexivity.
Defined.
